(** * Shallow embedding of tsp_solver.py (TSPProblem and TSPSolver)

    City indices and permutation entries are Python ints, modelled as [Z].
    Distances are the entries of the distance matrix, modelled as exact
    rationals [Q]; the matrix is a list of rows.  Where rounding matters,
    [evaluate_f64] repeats [_evaluate] over binary64 floats.  A raised [IndexError] is
    modelled as [None]. *)

From Stdlib Require Import String List ZArith QArith Lqa Lia Permutation Sorted PrimFloat.
Import ListNotations.

Open Scope Z_scope.

(** ** Python list indexing *)

(** [l[i]] on a Python list or a numpy array: a negative index counts from
    the end, an index outside [-len(l), len(l)) raises [IndexError]. *)
Definition py_index {A : Type} (l : list A) (i : Z) : option A :=
  if 0 <=? i then nth_error l (Z.to_nat i)
  else if - Z.of_nat (length l) <=? i
       then nth_error l (Z.to_nat (Z.of_nat (length l) + i))
       else None.

(** [range(n)] as a list of Python ints. *)
Definition py_range (n : nat) : list Z := map Z.of_nat (seq 0 n).

(** [[f(i) for i in xs]]: the comprehension raises as soon as one element
    raises. *)
Fixpoint map_opt {A B : Type} (f : A -> option B) (xs : list A)
  : option (list B) :=
  match xs with
  | [] => Some []
  | x :: xs' =>
      match f x with
      | None => None
      | Some y =>
          match map_opt f xs' with
          | None => None
          | Some ys => Some (y :: ys)
          end
      end
  end.

(** ** Distance matrix *)

Definition matrix := list (list Q).

(** [distance_matrix[i][j]] *)
Definition mat_get (D : matrix) (i j : Z) : option Q :=
  match py_index D i with
  | None => None
  | Some row => py_index row j
  end.

(** ** TSPProblem *)

Record TSPProblem := {
  distance_matrix : matrix;
  n_cities : nat;
  start_city : Z;
  cities_to_visit : list Z;
  n_var : nat;
  xl : Z;
  xu : Z
}.

(** [TSPProblem.__init__] *)
Definition mk_problem (D : matrix) (s : Z) : TSPProblem :=
  let n := length D in
  let ctv := filter (fun i => negb (i =? s)) (py_range n) in
  {| distance_matrix := D;
     n_cities := n;
     start_city := s;
     cities_to_visit := ctv;
     n_var := length ctv;
     xl := 0;
     xu := Z.of_nat (length ctv) - 1 |}.

(** The loop [for i in range(len(tour) - 1)] adding
    [distance_matrix[tour[i]][tour[i + 1]]] to [total_distance]. *)
Fixpoint add_legs (D : matrix) (total : Q) (tour : list Z) : option Q :=
  match tour with
  | a :: ((b :: _) as rest) =>
      match mat_get D a b with
      | None => None
      | Some d => add_legs D (total + d)%Q rest
      end
  | _ => Some total
  end.

(** [TSPProblem._evaluate]: the value stored in [out["F"]]. *)
Definition evaluate (p : TSPProblem) (x : list Z) : option Q :=
  match map_opt (py_index (cities_to_visit p)) x with
  | None => None
  | Some tour =>
      let total_distance := 0%Q in
      match py_index tour 0 with
      | None => None
      | Some first =>
          match mat_get (distance_matrix p) (start_city p) first with
          | None => None
          | Some d0 =>
              let total_distance := (total_distance + d0)%Q in
              match add_legs (distance_matrix p) total_distance tour with
              | None => None
              | Some total_distance =>
                  match py_index tour (-1) with
                  | None => None
                  | Some last =>
                      match mat_get (distance_matrix p) last (start_city p) with
                      | None => None
                      | Some dl => Some (total_distance + dl)%Q
                      end
                  end
              end
          end
      end
  end.

(** The reconstruction of the complete tour in the solver:
    [best_tour = [problem.cities_to_visit[int(i)] for i in best_perm]] and
    [complete_tour = [start_city] + best_tour + [start_city]]. *)
Definition decode (p : TSPProblem) (best_perm : list Z) : option (list Z) :=
  match map_opt (py_index (cities_to_visit p)) best_perm with
  | None => None
  | Some best_tour => Some ([start_city p] ++ best_tour ++ [start_city p])
  end.

(** ** The closed tour length, as the spec words it *)

(** Distances [D[t_k][t_{k+1}]] of all consecutive pairs of a tour. *)
Fixpoint legs (D : matrix) (t : list Z) : option (list Q) :=
  match t with
  | a :: ((b :: _) as rest) =>
      match mat_get D a b, legs D rest with
      | Some d, Some ds => Some (d :: ds)
      | _, _ => None
      end
  | _ => Some []
  end.

(** Sum of the legs of a tour, added left to right from [0]. *)
Definition tour_length (D : matrix) (t : list Z) : option Q :=
  match legs D t with
  | None => None
  | Some ds => Some (fold_left Qplus ds 0%Q)
  end.

(** ** The evaluation in float64 arithmetic

    The entries of the matrix are numpy float64 values and [_evaluate] adds
    them to the Python float [0.0] one by one; [evaluate] above adds them
    exactly.  For questions of rounding, the same loop over binary64 values
    with [PrimFloat.add] (IEEE 754 addition, rounding to nearest even, as
    numpy and Python do). *)
Definition matrix_f64 := list (list float).

(** [distance_matrix[i][j]] *)
Definition mat_get_f64 (D : matrix_f64) (i j : Z) : option float :=
  match py_index D i with
  | None => None
  | Some row => py_index row j
  end.

(** The loop [for i in range(len(tour) - 1)] of [_evaluate]. *)
Fixpoint add_legs_f64 (D : matrix_f64) (total : float) (tour : list Z)
  : option float :=
  match tour with
  | a :: ((b :: _) as rest) =>
      match mat_get_f64 D a b with
      | None => None
      | Some d => add_legs_f64 D (PrimFloat.add total d) rest
      end
  | _ => Some total
  end.

(** [TSPProblem(D, s)._evaluate(x)]: the value stored in [out["F"]], with
    [cities_to_visit] as [TSPProblem.__init__] builds it. *)
Definition evaluate_f64 (D : matrix_f64) (s : Z) (x : list Z) : option float :=
  let cities_to_visit := filter (fun i => negb (i =? s)) (py_range (length D)) in
  match map_opt (py_index cities_to_visit) x with
  | None => None
  | Some tour =>
      let total_distance := 0%float in
      match py_index tour 0 with
      | None => None
      | Some first =>
          match mat_get_f64 D s first with
          | None => None
          | Some d0 =>
              let total_distance := PrimFloat.add total_distance d0 in
              match add_legs_f64 D total_distance tour with
              | None => None
              | Some total_distance =>
                  match py_index tour (-1) with
                  | None => None
                  | Some last =>
                      match mat_get_f64 D last s with
                      | None => None
                      | Some dl => Some (PrimFloat.add total_distance dl)
                      end
                  end
              end
          end
      end
  end.

(** A symmetric three-city matrix as [load_distance_matrix] reads the lines
    [0 0.1 0.3], [0.1 0 0.2], [0.3 0.2 0]: each entry is the binary64 value
    nearest to its decimal, as [float()] parses it. *)
#[warnings="-inexact-float"]
Definition D3_f64 : matrix_f64 :=
  [[0; 0.1; 0.3]; [0.1; 0; 0.2]; [0.3; 0.2; 0]]%float.

(** ** Algorithm configuration handed to the GA library *)

Inductive Sampling := PermutationRandomSampling.

(** [OrderCrossover(prob=...)]; [None] is the library default. *)
Inductive Crossover := OrderCrossover (prob : option Q).

(** [InversionMutation(prob=...)]; [None] is the library default. *)
Inductive Mutation := InversionMutation (prob : option Q).

Record GA := {
  pop_size : Z;
  sampling : Sampling;
  crossover : Crossover;
  mutation : Mutation;
  eliminate_duplicates : bool
}.

(** [get_termination("n_gen", n_gen)] *)
Record Termination := { n_max_gen : Z }.

Definition get_termination_n_gen (n_gen : Z) : Termination :=
  {| n_max_gen := n_gen |}.

(** The dict returned by a solver run. *)
Record Result := {
  algorithm : string;
  res_start_city : Z;
  tour : list Z;
  distance : Q;
  execution_time : Q;
  generations : Z
}.

(** A Python dict as an association list in insertion order:
    [d[k] = v] replaces the value of a present key in place and appends a
    new key at the end. *)
Fixpoint dict_set {V : Type} (d : list (Z * V)) (k : Z) (v : V)
  : list (Z * V) :=
  match d with
  | [] => [(k, v)]
  | (k', v') :: d' =>
      if k' =? k then (k, v) :: d' else (k', v') :: dict_set d' k v
  end.

(** [results[start_city]]: the two runs keyed ["GA"] and ["GA2"]. *)
Definition results_dict := list (Z * list (string * Result)).

Record TSPSolver := {
  city_coords : list (Z * (Q * Q));
  solver_distance_matrix : matrix;
  solver_n_cities : nat;
  results : results_dict
}.

(** [TSPSolver.__init__] *)
Definition mk_solver (coords : list (Z * (Q * Q))) (D : matrix) : TSPSolver :=
  {| city_coords := coords;
     solver_distance_matrix := D;
     solver_n_cities := length D;
     results := [] |}.

Section Solver.

(** [minimize(problem, algorithm, termination, seed=..., verbose=False)]
    of the GA library, returning [res.X], the best permutation found.  The
    library is not part of this repository: it is a parameter, a function of
    its arguments, seed included.  [res.F[0]] is the fitness of [res.X] as
    computed by [problem._evaluate]; an exception raised there propagates
    out of [minimize]. *)
Variable minimize : TSPProblem -> GA -> Termination -> Z -> list Z.

(** [time.time()]: the reading returned by the [k]-th call of the clock. *)
Variable now : nat -> Q.

(** [TSPSolver.solve_with_genetic_algorithm]; [k] is the number of clock
    readings taken so far.  The printing is left out. *)
Definition solve_with_genetic_algorithm (self : TSPSolver)
    (start_city pop_size n_gen : Z) (k : nat) : option Result :=
  let problem := mk_problem (solver_distance_matrix self) start_city in
  let algorithm :=
    {| pop_size := pop_size;
       sampling := PermutationRandomSampling;
       crossover := OrderCrossover None;
       mutation := InversionMutation None;
       eliminate_duplicates := true |} in
  let termination := get_termination_n_gen n_gen in
  let start_time := now k in
  let best_perm := minimize problem algorithm termination 42 in
  match evaluate problem best_perm with
  | None => None
  | Some F =>
      let end_time := now (S k) in
      match decode problem best_perm with
      | None => None
      | Some complete_tour =>
          Some {| algorithm := "Genetic Algorithm (GA)";
                  res_start_city := start_city;
                  tour := complete_tour;
                  distance := F;
                  execution_time := (end_time - start_time)%Q;
                  generations := n_gen |}
      end
  end.

(** [TSPSolver.solve_with_modified_ga]; the imported [PointCrossover] and
    [PolynomialMutation] are not used by the algorithm. *)
Definition solve_with_modified_ga (self : TSPSolver)
    (start_city pop_size n_gen : Z) (k : nat) : option Result :=
  let problem := mk_problem (solver_distance_matrix self) start_city in
  let algorithm :=
    {| pop_size := pop_size;
       sampling := PermutationRandomSampling;
       crossover := OrderCrossover (Some (95 # 100)%Q);
       mutation := InversionMutation (Some (2 # 10)%Q);
       eliminate_duplicates := true |} in
  let termination := get_termination_n_gen n_gen in
  let start_time := now k in
  let best_perm := minimize problem algorithm termination 123 in
  match evaluate problem best_perm with
  | None => None
  | Some F =>
      let end_time := now (S k) in
      match decode problem best_perm with
      | None => None
      | Some complete_tour =>
          Some {| algorithm := "Modified Genetic Algorithm (GA-2)";
                  res_start_city := start_city;
                  tour := complete_tour;
                  distance := F;
                  execution_time := (end_time - start_time)%Q;
                  generations := n_gen |}
      end
  end.

(** One iteration of the loop of [compare_algorithms]: the dict entry for
    [start_city] is reset, then filled with the two runs. *)
Definition compare_step (self : TSPSolver) (pop_size n_gen : Z)
    (results : results_dict) (k : nat) (start_city : Z)
    : option (results_dict * nat) :=
  let results := dict_set results start_city [] in
  match solve_with_genetic_algorithm self start_city pop_size n_gen k with
  | None => None
  | Some ga_result =>
      let results := dict_set results start_city [("GA"%string, ga_result)] in
      match solve_with_modified_ga self start_city pop_size n_gen (k + 2) with
      | None => None
      | Some ga2_result =>
          let results :=
            dict_set results start_city
              [("GA"%string, ga_result); ("GA2"%string, ga2_result)] in
          Some (results, (k + 4)%nat)
      end
  end.

Fixpoint compare_loop (self : TSPSolver) (pop_size n_gen : Z)
    (start_cities : list Z) (results : results_dict) (k : nat)
    : option (results_dict * nat) :=
  match start_cities with
  | [] => Some (results, k)
  | start_city :: rest =>
      match compare_step self pop_size n_gen results k start_city with
      | None => None
      | Some (results, k) => compare_loop self pop_size n_gen rest results k
      end
  end.

(** [TSPSolver.compare_algorithms]: the updated solver ([self.results]
    set) and the returned dict; [None] when a run raised. *)
Definition compare_algorithms (self : TSPSolver) (start_cities : list Z)
    (pop_size n_gen : Z) (k : nat) : option (TSPSolver * results_dict) :=
  match compare_loop self pop_size n_gen start_cities [] k with
  | None => None
  | Some (results, _) =>
      Some ({| city_coords := city_coords self;
               solver_distance_matrix := solver_distance_matrix self;
               solver_n_cities := solver_n_cities self;
               results := results |}, results)
  end.

(** ** The parameterised engine the spec describes *)

(** The parameters in which the spec's two configurations differ:
    crossover probability, mutation probability, seed and result label. *)
Record EngineParams := {
  p_crossover : option Q;
  p_mutation : option Q;
  p_seed : Z;
  p_label : string
}.

(** One GA run as a function of [EngineParams], following the spec's
    "one parameterised EvolutionEngine". *)
Definition solve_engine (prm : EngineParams) (self : TSPSolver)
    (start_city pop_size n_gen : Z) (k : nat) : option Result :=
  let problem := mk_problem (solver_distance_matrix self) start_city in
  let algorithm :=
    {| pop_size := pop_size;
       sampling := PermutationRandomSampling;
       crossover := OrderCrossover (p_crossover prm);
       mutation := InversionMutation (p_mutation prm);
       eliminate_duplicates := true |} in
  let best_perm :=
    minimize problem algorithm (get_termination_n_gen n_gen) (p_seed prm) in
  match evaluate problem best_perm, decode problem best_perm with
  | Some F, Some complete_tour =>
      Some {| algorithm := p_label prm;
              res_start_city := start_city;
              tour := complete_tour;
              distance := F;
              execution_time := (now (S k) - now k)%Q;
              generations := n_gen |}
  | _, _ => None
  end.

End Solver.


Definition primary_params : EngineParams :=
  {| p_crossover := None; p_mutation := None; p_seed := 42;
     p_label := "Genetic Algorithm (GA)" |}.

Definition variant_params : EngineParams :=
  {| p_crossover := Some (95 # 100)%Q; p_mutation := Some (2 # 10)%Q;
     p_seed := 123; p_label := "Modified Genetic Algorithm (GA-2)" |}.

(** What a run returns apart from its wall-clock time. *)
Definition outcome (r : option Result) : option (string * Z * list Z * Q * Z) :=
  option_map (fun r => (algorithm r, res_start_city r, tour r, distance r,
                        generations r)) r.

(** Every row has [len(D)] entries. *)
Definition square (D : matrix) : Prop :=
  forall row, In row D -> length row = length D.

(** A GA library that returns the identity permutation, and a clock that
    ticks one second per reading: concrete instances for the examples. *)
Definition id_engine (p : TSPProblem) (_ : GA) (_ : Termination) (_ : Z) : list Z :=
  py_range (n_var p).

Definition clock0 (k : nat) : Q := inject_Z (Z.of_nat k).

(** An asymmetric two-city matrix. *)
Definition D2 : matrix := [[0; 1]; [2; 0]]%Q.

(** A symmetric three-city matrix. *)
Definition D3 : matrix :=
  [[0; 2; 9]; [2; 0; 6]; [9; 6; 0]]%Q.

(** The solver and dict of [compare_algorithms] on [D3] with start cities
    [[0, 2, 0]]. *)
Definition sample_compare : option (TSPSolver * results_dict) :=
  Eval vm_compute in
    compare_algorithms id_engine clock0 (mk_solver [] D3) [0; 2; 0] 10 50 0.

Definition sample_solver : TSPSolver :=
  match sample_compare with Some (s, _) => s | None => mk_solver [] [] end.

Definition sample_results : results_dict :=
  match sample_compare with Some (_, r) => r | None => [] end.

(** A hand-filled results dict, keys not in sorted order, with a tie. *)
Definition sample_result (algo : string) (s : Z) (d : Q) : Result :=
  {| algorithm := algo; res_start_city := s; tour := [s; s]; distance := d;
     execution_time := 0; generations := 1 |}.

Definition sample_dict : results_dict :=
  [(3, [("GA"%string, sample_result "GA" 3 5); ("GA2"%string, sample_result "GA2" 3 4)]);
   (1, [("GA"%string, sample_result "GA" 1 4); ("GA2"%string, sample_result "GA2" 1 6)])].

(** The result of a run on a two-city instance: the tour [[s, o, s]] with
    [o = 1 - s], of length [D[s][o] + D[o][s]], which is [2 * D[s][o]] when
    the two entries agree. *)
Definition two_city_result (D : matrix) (s : Z) (r : Result) : Prop :=
  tour r = [s; 1 - s; s] /\
  exists a b, mat_get D s (1 - s) = Some a /\ mat_get D (1 - s) s = Some b /\
    (distance r == a + b)%Q /\ (a = b -> distance r == 2 * a)%Q.

(** The library returns a permutation of [0..n_var-1]. *)
Definition engine_perm (minimize : TSPProblem -> GA -> Termination -> Z -> list Z)
    (D : matrix) (s : Z) : Prop :=
  forall cfg term seed,
    Permutation (minimize (mk_problem D s) cfg term seed)
                (py_range (n_var (mk_problem D s))).

(** The library returns a permutation of [0..n_var-1] when it is called
    with a population size [size] and the termination [("n_gen", gens)], for
    any operators and seed: the library's contract at one configuration of
    a run. *)
Definition engine_perm_at (minimize : TSPProblem -> GA -> Termination -> Z -> list Z)
    (D : matrix) (s size gens : Z) : Prop :=
  forall cfg seed, pop_size cfg = size ->
    Permutation (minimize (mk_problem D s) cfg (get_termination_n_gen gens) seed)
                (py_range (n_var (mk_problem D s))).

(** Case analysis on the fitness and the decoding of a run. *)
Ltac split_runs :=
  repeat match goal with
  | |- context [evaluate ?p ?x] => destruct (evaluate p x)
  | |- context [decode ?p ?x] => destruct (decode p x)
  end.

(** ** Properties of distance matrices *)

(** Every entry [D[i][j]] is non-negative. *)
Definition nonneg (D : matrix) : Prop :=
  forall i j v, mat_get D i j = Some v -> (0 <= v)%Q.

(** [D[i][j] = D[j][i]] for all Python ints [i], [j] (a lookup that raises
    on one side raises on the other). *)
Definition symmetric (D : matrix) : Prop :=
  forall i j, mat_get D i j = mat_get D j i.

(** Equal tour lengths: both raise, or both return equal numbers. *)
Definition opt_Qeq (a b : option Q) : Prop :=
  match a, b with
  | Some u, Some v => (u == v)%Q
  | None, None => True
  | _, _ => False
  end.

Definition nonneg_check (D : matrix) : bool :=
  forallb (forallb (fun q => Qle_bool 0 q)) D.

(** A bound on the length of [D] and of each of its rows. *)
Definition mat_bound (D : matrix) : nat :=
  fold_right Nat.max (length D) (map (@length Q) D).

(** The Python ints [-K .. K-1]. *)
Definition zrange (K : nat) : list Z :=
  map (fun n => Z.of_nat n - Z.of_nat K) (seq 0 (2 * K)).

Definition opt_Q_eqb (a b : option Q) : bool :=
  match a, b with
  | Some u, Some v => (Qnum u =? Qnum v) && Pos.eqb (Qden u) (Qden v)
  | None, None => true
  | _, _ => false
  end.

Definition symmetric_check (D : matrix) : bool :=
  let r := zrange (mat_bound D) in
  forallb (fun i => forallb (fun j => opt_Q_eqb (mat_get D i j) (mat_get D j i)) r) r.

(** The non-negative index a Python index [i] into a sequence of length
    [n] stands for. *)
Definition py_norm (n : nat) (i : Z) : Z := if i <? 0 then Z.of_nat n + i else i.

(** ** Reading the result dict *)

(** [d[k]] on a dict with integer keys; [None] is a [KeyError]. *)
Fixpoint dict_get {V : Type} (d : list (Z * V)) (k : Z) : option V :=
  match d with
  | [] => None
  | (k', v) :: d' => if k' =? k then Some v else dict_get d' k
  end.

(** [d[k]] on a dict with string keys; [None] is a [KeyError]. *)
Fixpoint str_get {V : Type} (d : list (string * V)) (k : string) : option V :=
  match d with
  | [] => None
  | (k', v) :: d' => if String.eqb k' k then Some v else str_get d' k
  end.

(** The keys after [d[x] = ...] on a dict with keys [acc]: a new key is
    appended. *)
Definition dedup_step (acc : list Z) (x : Z) : list Z :=
  if existsb (Z.eqb x) acc then acc else acc ++ [x].

(** The keys of a dict filled by [d[k] = ...] for [k] in [l], in insertion
    order: each value at its first occurrence. *)
Definition py_dedup (l : list Z) : list Z := fold_left dedup_step l [].

(** [results[start_city]['GA']] and [results[start_city]['GA2']]. *)
Definition entries_of (results : results_dict) (start_city : Z)
    : option (list (Z * string * Result)) :=
  match dict_get results start_city with
  | None => None
  | Some inner =>
      match str_get inner "GA"%string with
      | None => None
      | Some ga =>
          match str_get inner "GA2"%string with
          | None => None
          | Some ga2 => Some [(start_city, "GA"%string, ga); (start_city, "GA2"%string, ga2)]
          end
      end
  end.

(** The entries visited by
    [for start_city in results.keys(): for algo in ['GA', 'GA2']:
       result = results[start_city][algo]]; [None] is a [KeyError]. *)
Definition result_entries (results : results_dict)
    : option (list (Z * string * Result)) :=
  match map_opt (entries_of results) (map fst results) with
  | None => None
  | Some ls => Some (concat ls)
  end.

(** The loop of [print_results_table] (and of the text report of
    [run_tsp_project.main]) that keeps the entry with the smallest distance:
    [best_distance = None] stands for [float('inf')], and an entry replaces
    the best one only if [result['distance'] < best_distance]. *)
Fixpoint best_loop (best_distance : option Q)
    (best_config : option (Z * string * Result))
    (entries : list (Z * string * Result)) : option (Z * string * Result) :=
  match entries with
  | [] => best_config
  | (start_city, algo, result) :: rest =>
      let better :=
        match best_distance with
        | None => true
        | Some b => negb (Qle_bool b (distance result))
        end in
      if better
      then best_loop (Some (distance result)) (Some (start_city, algo, result)) rest
      else best_loop best_distance best_config rest
  end.

(** [best_config] after the loop; [None] outside is a [KeyError]. *)
Definition find_best (results : results_dict)
    : option (option (Z * string * Result)) :=
  match result_entries results with
  | None => None
  | Some entries => Some (best_loop None None entries)
  end.

(** ** Reading the data files *)

(** [str.isspace()] on an ASCII character: tab, line feed, vertical tab,
    form feed, carriage return, the separators 0x1c-0x1f and space. *)
Definition is_py_space (c : Ascii.ascii) : bool :=
  let n := Ascii.nat_of_ascii c in
  ((9 <=? n) && (n <=? 13))%nat || ((28 <=? n) && (n <=? 32))%nat.

Fixpoint lstrip_chars (cs : list Ascii.ascii) : list Ascii.ascii :=
  match cs with
  | [] => []
  | c :: cs' => if is_py_space c then lstrip_chars cs' else cs
  end.

(** [s.strip()] on an ASCII string. *)
Definition py_strip (s : string) : string :=
  string_of_list_ascii
    (rev (lstrip_chars (rev (lstrip_chars (list_ascii_of_string s))))).

(** The tokens of [s.split()]: maximal runs of non-space characters;
    [cur] is the current token, reversed. *)
Fixpoint split_chars (cur : list Ascii.ascii) (cs : list Ascii.ascii)
    : list (list Ascii.ascii) :=
  match cs with
  | [] => match cur with [] => [] | _ => [rev cur] end
  | c :: cs' =>
      if is_py_space c
      then match cur with
           | [] => split_chars [] cs'
           | _ => rev cur :: split_chars [] cs'
           end
      else split_chars (c :: cur) cs'
  end.

(** [s.split()] on an ASCII string. *)
Definition py_split (s : string) : list string :=
  map string_of_list_ascii (split_chars [] (list_ascii_of_string s)).

Section Loaders.

(** [int(t)] and [float(t)] on a token; [None] is a [ValueError].  Python's
    number syntax is not modelled: the loaders are parametric in it. *)
Variable py_int : string -> option Z.
Variable py_float : string -> option Q.

(** The loop of [load_city_data] over the lines of the file. *)
Fixpoint load_city_lines (city_coords : list (Z * (Q * Q))) (lines : list string)
    : option (list (Z * (Q * Q))) :=
  match lines with
  | [] => Some city_coords
  | line :: rest =>
      let parts := py_split (py_strip line) in
      if (length parts =? 3)%nat then
        match py_int (nth 0 parts ""%string) with
        | None => None
        | Some city_id =>
            match py_float (nth 1 parts ""%string) with
            | None => None
            | Some x =>
                match py_float (nth 2 parts ""%string) with
                | None => None
                | Some y => load_city_lines (dict_set city_coords city_id (x, y)) rest
                end
            end
        end
      else load_city_lines city_coords rest
  end.

(** [load_city_data], given the lines of the file. *)
Definition load_city_data (lines : list string) : option (list (Z * (Q * Q))) :=
  load_city_lines [] lines.

(** The loop of [load_distance_matrix] over the lines of the file. *)
Fixpoint load_rows (distances : matrix) (lines : list string) : option matrix :=
  match lines with
  | [] => Some distances
  | line :: rest =>
      match map_opt py_float (py_split (py_strip line)) with
      | None => None
      | Some row =>
          match row with
          | [] => load_rows distances rest
          | _ => load_rows (distances ++ [row]) rest
          end
      end
  end.

(** [np.array(distances)] on a list of rows: a two-dimensional array when
    all rows have one length; ragged rows raise a [ValueError] (numpy 1.24
    and later). *)
Definition np_array (rows : matrix) : option matrix :=
  match rows with
  | [] => Some []
  | r :: _ => if forallb (fun r' => (length r' =? length r)%nat) rows
              then Some rows else None
  end.

(** [load_distance_matrix], given the lines of the file. *)
Definition load_distance_matrix (lines : list string) : option matrix :=
  match load_rows [] lines with
  | None => None
  | Some distances => np_array distances
  end.

End Loaders.

(** A line holds no token after [line.strip().split()]. *)
Definition blank_line (line : string) : bool :=
  match py_split (py_strip line) with [] => true | _ => false end.

(** Unsigned decimal numerals, a sub-language of what [int()] and [float()]
    accept, to run the loaders on concrete lines. *)
Fixpoint digits_value (acc : Z) (cs : list Ascii.ascii) : option Z :=
  match cs with
  | [] => Some acc
  | c :: cs' =>
      let n := Ascii.nat_of_ascii c in
      if ((48 <=? n) && (n <=? 57))%nat
      then digits_value (acc * 10 + Z.of_nat (n - 48)) cs'
      else None
  end.

Definition parse_digits (t : string) : option Z :=
  match list_ascii_of_string t with
  | [] => None
  | cs => digits_value 0 cs
  end.

Definition parse_digits_Q (t : string) : option Q :=
  option_map inject_Z (parse_digits t).

(** ** Lemmas on Python indexing and comprehensions *)

Lemma py_index_nonneg {A} (l : list A) (i : Z) :
  0 <= i -> py_index l i = nth_error l (Z.to_nat i).
Proof. intros H. unfold py_index. destruct (Z.leb_spec 0 i); [reflexivity | lia]. Qed.

Lemma py_index_out {A} (l : list A) (i : Z) :
  (i < - Z.of_nat (length l) \/ Z.of_nat (length l) <= i) -> py_index l i = None.
Proof.
  intros H. unfold py_index.
  destruct (Z.leb_spec 0 i).
  - apply nth_error_None. lia.
  - destruct (Z.leb_spec (- Z.of_nat (length l)) i); [lia | reflexivity].
Qed.

Lemma py_index_in {A} (l : list A) (i : Z) (d : A) :
  0 <= i < Z.of_nat (length l) -> py_index l i = Some (nth (Z.to_nat i) l d).
Proof.
  intros H. rewrite py_index_nonneg by lia.
  apply nth_error_nth'. lia.
Qed.

Lemma py_index_last {A} (l : list A) (d : A) :
  l <> [] -> py_index l (-1) = Some (last l d).
Proof.
  intros Hl. destruct l as [|a l]; [congruence|].
  unfold py_index. destruct (Z.leb_spec 0 (-1)); [lia|].
  rewrite (proj2 (Z.leb_le (- Z.of_nat (length (a :: l))) (-1)))
    by (simpl length; lia).
  replace (Z.to_nat (Z.of_nat (length (a :: l)) + -1)) with (length l)
    by (simpl length; lia).
  clear. revert a. induction l as [|b l IH]; intros a; [reflexivity|].
  simpl length. simpl nth_error. rewrite IH. reflexivity.
Qed.

Lemma map_opt_app {A B} (f : A -> option B) (l1 l2 : list A) :
  map_opt f (l1 ++ l2) =
  match map_opt f l1, map_opt f l2 with
  | Some ys1, Some ys2 => Some (ys1 ++ ys2)
  | _, _ => None
  end.
Proof.
  induction l1 as [|a l1 IH]; simpl.
  - destruct (map_opt f l2); reflexivity.
  - destruct (f a); [|reflexivity]. rewrite IH.
    destruct (map_opt f l1), (map_opt f l2); reflexivity.
Qed.

Lemma map_opt_rev {A B} (f : A -> option B) (l : list A) :
  map_opt f (rev l) = option_map (@rev B) (map_opt f l).
Proof.
  induction l as [|a l IH]; simpl; [reflexivity|].
  rewrite map_opt_app, IH. simpl.
  destruct (f a), (map_opt f l); reflexivity.
Qed.

Lemma map_opt_total {A B} (f : A -> option B) (g : A -> B) (l : list A) :
  (forall a, In a l -> f a = Some (g a)) -> map_opt f l = Some (map g l).
Proof.
  induction l as [|a l IH]; intros H; simpl; [reflexivity|].
  rewrite H by (left; reflexivity).
  rewrite IH by (intros b Hb; apply H; right; exact Hb). reflexivity.
Qed.

Lemma map_opt_None {A B} (f : A -> option B) (l : list A) :
  map_opt f l = None <-> exists a, In a l /\ f a = None.
Proof.
  induction l as [|a l IH]; simpl.
  - split; [discriminate | intros (c & [] & _)].
  - destruct (f a) eqn:Ha.
    + destruct (map_opt f l) eqn:Hl.
      * split; [discriminate|]. intros (c & [<-|Hb] & Hfb); [congruence|].
        assert (Some l0 = None) as Hc by (apply IH; eauto). discriminate.
      * split; [|reflexivity]. intros _.
        destruct (proj1 IH eq_refl) as (c & Hb & Hfb). eauto.
    + split; [|reflexivity]. intros _. eauto.
Qed.

Lemma py_range_length (n : nat) : length (py_range n) = n.
Proof. unfold py_range. rewrite length_map, length_seq. reflexivity. Qed.

Lemma in_py_range (n : nat) (c : Z) : In c (py_range n) <-> 0 <= c < Z.of_nat n.
Proof.
  unfold py_range. rewrite in_map_iff. split.
  - intros (m & <- & Hm). apply in_seq in Hm. lia.
  - intros H. exists (Z.to_nat c). split; [lia|]. apply in_seq. lia.
Qed.

Lemma py_range_NoDup (n : nat) : NoDup (py_range n).
Proof.
  unfold py_range. apply NoDup_map_inv with (f := Z.to_nat).
  rewrite map_map.
  rewrite (map_ext (fun x => Z.to_nat (Z.of_nat x)) (fun x => x))
    by (intros; lia).
  rewrite map_id. apply seq_NoDup.
Qed.

(** [[l[i] for i in range(len(l))]] is [l]. *)
Lemma map_nth_py_range {A} (l : list A) (d : A) :
  map (fun i => nth (Z.to_nat i) l d) (py_range (length l)) = l.
Proof.
  unfold py_range. rewrite map_map.
  rewrite (map_ext (fun x => nth (Z.to_nat (Z.of_nat x)) l d) (fun x => nth x l d))
    by (intros; rewrite Nat2Z.id; reflexivity).
  clear. induction l as [|a l IH]; [reflexivity|].
  simpl length. rewrite <- cons_seq, <- seq_shift. simpl map. rewrite map_map. simpl.
  f_equal. exact IH.
Qed.

(** Decoding a permutation of [range(len(l))] through [l] yields a
    permutation of [l]. *)
Lemma decode_perm {A} (l : list A) (d : A) (x : list Z) :
  Permutation x (py_range (length l)) ->
  map_opt (py_index l) x = Some (map (fun i => nth (Z.to_nat i) l d) x) /\
  Permutation (map (fun i => nth (Z.to_nat i) l d) x) l.
Proof.
  intros Hp. split.
  - apply map_opt_total. intros i Hi.
    apply py_index_in.
    apply (Permutation_in _ Hp), in_py_range in Hi. exact Hi.
  - eapply Permutation_trans; [apply Permutation_map; exact Hp|].
    rewrite map_nth_py_range. apply Permutation_refl.
Qed.

(** ** [cities_to_visit] *)

Lemma StronglySorted_filter {A} (R : A -> A -> Prop) (f : A -> bool) (l : list A) :
  StronglySorted R l -> StronglySorted R (filter f l).
Proof.
  induction 1 as [|a l Hs IH Hf]; simpl; [constructor|].
  destruct (f a); [|exact IH].
  constructor; [exact IH|].
  rewrite Forall_forall in *. intros y Hy. apply filter_In in Hy.
  apply Hf, Hy.
Qed.

Lemma py_range_sorted_from (k n : nat) :
  StronglySorted Z.lt (map Z.of_nat (seq k n)).
Proof.
  revert k. induction n as [|n IH]; intros k; simpl; constructor.
  - apply IH.
  - rewrite Forall_forall. intros y Hy. apply in_map_iff in Hy.
    destruct Hy as (m & <- & Hm). apply in_seq in Hm. lia.
Qed.

Section CitiesToVisit.

Variable D : matrix.
Variable s : Z.

Let ctv := cities_to_visit (mk_problem D s).
Let N := length D.

Lemma in_ctv (c : Z) : In c ctv <-> 0 <= c < Z.of_nat N /\ c <> s.
Proof.
  unfold ctv, N. simpl. rewrite filter_In, in_py_range.
  rewrite Bool.negb_true_iff, Z.eqb_neq. tauto.
Qed.

Lemma ctv_NoDup : NoDup ctv.
Proof. apply NoDup_filter, py_range_NoDup. Qed.

Lemma ctv_sorted : StronglySorted Z.lt ctv.
Proof. apply StronglySorted_filter, py_range_sorted_from. Qed.

Lemma ctv_perm_start :
  0 <= s < Z.of_nat N -> Permutation (s :: ctv) (py_range N).
Proof.
  intros Hs. apply NoDup_Permutation.
  - constructor; [|apply ctv_NoDup].
    rewrite in_ctv. tauto.
  - apply py_range_NoDup.
  - intros c. rewrite in_py_range. simpl. rewrite in_ctv.
    destruct (Z.eq_dec s c); [subst; tauto|]. split; [intros [|]; lia|].
    intros H. right. split; [exact H | congruence].
Qed.

Lemma ctv_length_in :
  0 <= s < Z.of_nat N -> S (length ctv) = N.
Proof.
  intros Hs. pose proof (Permutation_length (ctv_perm_start Hs)) as Hl.
  simpl in Hl. rewrite py_range_length in Hl. exact Hl.
Qed.

Lemma ctv_out :
  (s < 0 \/ Z.of_nat N <= s) -> ctv = py_range N.
Proof.
  intros Hs. unfold ctv, N. simpl. apply forallb_filter_id.
  apply forallb_forall. intros c Hc. apply in_py_range in Hc.
  apply Bool.negb_true_iff, Z.eqb_neq. lia.
Qed.

End CitiesToVisit.

(** ** [_evaluate] is the closed tour length *)

Lemma add_legs_legs (D : matrix) (t : list Z) (acc : Q) :
  add_legs D acc t = option_map (fun ds => fold_left Qplus ds acc) (legs D t).
Proof.
  revert acc. induction t as [|a t IH]; intros acc; [reflexivity|].
  destruct t as [|b t]; [reflexivity|].
  change (add_legs D acc (a :: b :: t))
    with (match mat_get D a b with
          | None => None
          | Some d => add_legs D (acc + d)%Q (b :: t) end).
  change (legs D (a :: b :: t))
    with (match mat_get D a b, legs D (b :: t) with
          | Some d, Some ds => Some (d :: ds)
          | _, _ => None end).
  destruct (mat_get D a b) as [d|]; [|reflexivity].
  rewrite IH. destruct (legs D (b :: t)); reflexivity.
Qed.

Lemma legs_snoc (D : matrix) (t : list Z) (b : Z) :
  t <> [] ->
  legs D (t ++ [b]) =
  match legs D t, mat_get D (last t 0) b with
  | Some ds, Some d => Some (ds ++ [d])
  | _, _ => None
  end.
Proof.
  induction t as [|a t IH]; intros Ht; [congruence|].
  destruct t as [|c t].
  - simpl. destruct (mat_get D a b); reflexivity.
  - change ((a :: c :: t) ++ [b]) with (a :: ((c :: t) ++ [b])).
    change (last (a :: c :: t) 0) with (last (c :: t) 0).
    cbn [app]. change (c :: t ++ [b]) with ((c :: t) ++ [b]).
    change (legs D (a :: (c :: t) ++ [b]))
      with (match mat_get D a c, legs D ((c :: t) ++ [b]) with
            | Some d, Some ds => Some (d :: ds)
            | _, _ => None end).
    change (legs D (a :: c :: t))
      with (match mat_get D a c, legs D (c :: t) with
            | Some d, Some ds => Some (d :: ds)
            | _, _ => None end).
    rewrite IH by discriminate.
    destruct (mat_get D a c), (legs D (c :: t)), (mat_get D (last (c :: t) 0) b);
      reflexivity.
Qed.

(** [_evaluate] on [x] is the length of the closed tour
    [start_city :: mapped cities ++ [start_city]], computed as the sum of its
    legs left to right; it raises when [x] is empty or an index is out of
    range. *)
Lemma evaluate_closed (p : TSPProblem) (x : list Z) :
  evaluate p x =
  match map_opt (py_index (cities_to_visit p)) x with
  | Some (c :: cs) =>
      tour_length (distance_matrix p)
        (start_city p :: (c :: cs) ++ [start_city p])
  | _ => None
  end.
Proof.
  unfold evaluate.
  destruct (map_opt (py_index (cities_to_visit p)) x) as [[|c cs]|];
    [reflexivity| |reflexivity].
  set (D := distance_matrix p). set (s := start_city p).
  change (py_index (c :: cs) 0) with (Some c). cbv iota beta.
  unfold tour_length.
  change (legs D (s :: (c :: cs) ++ [s]))
    with (match mat_get D s c, legs D ((c :: cs) ++ [s]) with
          | Some d, Some ds => Some (d :: ds)
          | _, _ => None end).
  rewrite legs_snoc by discriminate.
  rewrite py_index_last with (d := 0) by discriminate.
  destruct (mat_get D s c) as [d0|]; [|reflexivity].
  cbv zeta. rewrite add_legs_legs.
  destruct (legs D (c :: cs)) as [ds|]; [|reflexivity].
  simpl option_map. cbv iota beta.
  destruct (mat_get D (last (c :: cs) 0) s) as [dl|]; [|reflexivity].
  simpl. rewrite fold_left_app. reflexivity.
Qed.

(** ** Claims on [TSPProblem] and the decoding of a permutation *)

(** C1: for a permutation [x] of [0..len(cities_to_visit)-1] (non-empty, so
    that [c_0] and [c_last] exist), [_evaluate] returns the length of the
    closed tour [s, c_0, ..., c_last, s] with [c_k = cities_to_visit[x[k]]]:
    [D[s][c_0] + D[c_0][c_1] + ... + D[c_last][s]], nothing scaled. *)
Theorem evaluate_closed_tour_length (D : matrix) (s : Z) (x : list Z) :
  Permutation x (py_range (length (cities_to_visit (mk_problem D s)))) ->
  x <> [] ->
  evaluate (mk_problem D s) x =
  tour_length D
    (s :: map (fun i => nth (Z.to_nat i) (cities_to_visit (mk_problem D s)) 0) x
       ++ [s]).
Proof.
  intros Hp Hx. rewrite evaluate_closed.
  rewrite (proj1 (decode_perm _ 0 x Hp)).
  destruct x as [|i x]; [congruence|]. reflexivity.
Qed.

Lemma evaluate_closed_tour_length_witness :
  Permutation [1; 0] (py_range (length (cities_to_visit (mk_problem D3 0)))) /\
  [1; 0] <> [] /\
  evaluate (mk_problem D3 0) [1; 0] =
  tour_length D3
    (0 :: map (fun i => nth (Z.to_nat i) (cities_to_visit (mk_problem D3 0)) 0)
            [1; 0] ++ [0]).
Proof.
  assert (Hp : Permutation [1; 0] (py_range (length (cities_to_visit (mk_problem D3 0)))))
    by (simpl; apply perm_swap).
  split; [exact Hp|]. split; [discriminate|].
  apply (evaluate_closed_tour_length D3 0 [1; 0] Hp). discriminate.
Defined.

(** C2: for a valid start city [s] and a permutation [x] of
    [0..len(cities_to_visit)-1], [cities_to_visit] is the ascending list of
    all city indices but [s], and the complete tour
    [[s] + [cities_to_visit[x[k]] ...] + [s]] has [N + 1] elements, starts
    and ends with [s], holds [s] twice and every other city once. *)
Theorem decode_complete_tour (D : matrix) (s : Z) (x : list Z) :
  0 <= s < Z.of_nat (length D) ->
  Permutation x (py_range (length (cities_to_visit (mk_problem D s)))) ->
  StronglySorted Z.lt (cities_to_visit (mk_problem D s)) /\
  (forall c, In c (cities_to_visit (mk_problem D s)) <->
             0 <= c < Z.of_nat (length D) /\ c <> s) /\
  exists t, decode (mk_problem D s) x = Some t /\
    length t = S (length D) /\
    hd_error t = Some s /\ last t 0 = s /\
    count_occ Z.eq_dec t s = 2%nat /\
    (forall c, c <> s -> 0 <= c < Z.of_nat (length D) ->
               count_occ Z.eq_dec t c = 1%nat) /\
    (forall c, ~ (0 <= c < Z.of_nat (length D)) ->
               count_occ Z.eq_dec t c = 0%nat).
Proof.
  intros Hs Hp.
  set (ctv := cities_to_visit (mk_problem D s)) in *.
  destruct (decode_perm ctv 0 x Hp) as [Hm Hperm].
  set (mid := map (fun i => nth (Z.to_nat i) ctv 0) x) in *.
  split; [apply ctv_sorted|]. split; [apply in_ctv|].
  exists (s :: mid ++ [s]). split.
  { unfold decode. fold ctv. rewrite Hm. reflexivity. }
  (* the tour is a permutation of [s :: range(N)] *)
  assert (Ht : Permutation (s :: mid ++ [s]) (s :: py_range (length D))).
  { constructor. eapply Permutation_trans; [apply Permutation_sym, Permutation_cons_append|].
    eapply Permutation_trans; [apply perm_skip, Hperm|].
    apply ctv_perm_start, Hs. }
  assert (Hc : forall c, count_occ Z.eq_dec (s :: mid ++ [s]) c =
                         count_occ Z.eq_dec (s :: py_range (length D)) c)
    by (intros c; apply Permutation_count_occ, Ht).
  repeat split.
  - apply Permutation_length in Ht. simpl in *.
    rewrite py_range_length in Ht. exact Ht.
  - change (last (s :: mid ++ [s]) 0) with (last ((s :: mid) ++ [s]) 0).
    apply last_last.
  - rewrite Hc. simpl. destruct (Z.eq_dec s s); [|congruence].
    f_equal. apply NoDup_count_occ'; [apply py_range_NoDup|].
    apply in_py_range, Hs.
  - intros c Hcs Hcr. rewrite Hc. simpl. destruct (Z.eq_dec s c); [congruence|].
    apply NoDup_count_occ'; [apply py_range_NoDup|]. apply in_py_range, Hcr.
  - intros c Hcr. rewrite Hc. simpl. destruct (Z.eq_dec s c); [subst; lia|].
    apply count_occ_not_In. rewrite in_py_range. exact Hcr.
Qed.

Lemma decode_complete_tour_witness :
  0 <= 0 < Z.of_nat (length D3) /\
  Permutation [1; 0] (py_range (length (cities_to_visit (mk_problem D3 0)))) /\
  exists t, decode (mk_problem D3 0) [1; 0] = Some t /\
    length t = S (length D3) /\ count_occ Z.eq_dec t 0 = 2%nat.
Proof.
  assert (Hs : 0 <= 0 < Z.of_nat (length D3)) by (simpl; lia).
  assert (Hp : Permutation [1; 0] (py_range (length (cities_to_visit (mk_problem D3 0)))))
    by (simpl; apply perm_swap).
  split; [exact Hs|]. split; [exact Hp|].
  destruct (decode_complete_tour D3 0 [1; 0] Hs Hp)
    as (_ & _ & t & Ht & Hl & _ & _ & Hc & _).
  exists t. split; [exact Ht|]. split; [exact Hl | exact Hc].
Defined.

(** C6 (as the code has it): decoding performs no bijection check.  It
    fails, with an [IndexError], exactly when an entry of [x] lies outside
    [-len(cities_to_visit) .. len(cities_to_visit)-1]; every [x] with entries
    in [0 .. len(cities_to_visit)-1], repeated or missing indices included,
    is decoded to [[s] + [cities_to_visit[x[k]] ...] + [s]]. *)
Theorem decode_no_bijection_check (D : matrix) (s : Z) (x : list Z) :
  (decode (mk_problem D s) x = None <->
   exists i, In i x /\
     (i < - Z.of_nat (length (cities_to_visit (mk_problem D s))) \/
      Z.of_nat (length (cities_to_visit (mk_problem D s))) <= i)) /\
  ((forall i, In i x ->
      0 <= i < Z.of_nat (length (cities_to_visit (mk_problem D s)))) ->
   decode (mk_problem D s) x =
   Some (s :: map (fun i => nth (Z.to_nat i) (cities_to_visit (mk_problem D s)) 0) x
           ++ [s])).
Proof.
  set (ctv := cities_to_visit (mk_problem D s)).
  assert (Hidx : forall i, py_index ctv i = None <->
            i < - Z.of_nat (length ctv) \/ Z.of_nat (length ctv) <= i).
  { intros i. split; [|apply py_index_out].
    intros H. destruct (Z.leb_spec 0 i).
    - rewrite py_index_nonneg in H by lia. apply nth_error_None in H. lia.
    - unfold py_index in H. destruct (Z.leb_spec 0 i); [lia|].
      destruct (Z.leb_spec (- Z.of_nat (length ctv)) i); [|lia].
      apply nth_error_None in H. lia. }
  split.
  - unfold decode. fold ctv.
    destruct (map_opt (py_index ctv) x) eqn:Hm.
    + split; [discriminate|]. intros (i & Hi & Hr).
      assert (Hn : map_opt (py_index ctv) x = None)
        by (apply map_opt_None; exists i; split; [exact Hi | apply Hidx, Hr]).
      congruence.
    + split; [intros _|reflexivity].
      apply map_opt_None in Hm. destruct Hm as (i & Hi & Hn).
      exists i. split; [exact Hi | apply Hidx, Hn].
  - intros Hin. unfold decode. fold ctv.
    rewrite (map_opt_total _ (fun i => nth (Z.to_nat i) ctv 0))
      by (intros i Hi; apply py_index_in, Hin, Hi).
    reflexivity.
Qed.

Lemma decode_no_bijection_check_witness :
  (forall i, In i [0; 0] ->
     0 <= i < Z.of_nat (length (cities_to_visit (mk_problem D3 0)))) /\
  decode (mk_problem D3 0) [0; 0] =
  Some (0 :: map (fun i => nth (Z.to_nat i) (cities_to_visit (mk_problem D3 0)) 0) [0; 0]
          ++ [0]).
Proof.
  assert (Hin : forall i, In i [0; 0] ->
             0 <= i < Z.of_nat (length (cities_to_visit (mk_problem D3 0))))
    by (intros i Hi; simpl in Hi; simpl; intuition subst; lia).
  split; [exact Hin|].
  apply (proj2 (decode_no_bijection_check D3 0 [0; 0]) Hin).
Defined.

(** C6 refuted: [[0, 0]] is no permutation of [0..1], yet it decodes, with
    the city [1] visited twice and the city [2] never. *)
Lemma decode_repeated_index_accepted :
  decode (mk_problem D3 0) [0; 0] = Some [0; 1; 1; 0].
Proof. reflexivity. Qed.

(** C10: an out-of-range start city is accepted by the constructor;
    [cities_to_visit] is then [range(N)], [n_var = N], and a decoded
    permutation of [0..N-1] is [[s] + (a permutation of all N cities) + [s]]. *)
Theorem start_city_unchecked (D : matrix) (s : Z) :
  (s < 0 \/ Z.of_nat (length D) <= s) ->
  cities_to_visit (mk_problem D s) = py_range (length D) /\
  n_var (mk_problem D s) = length D /\
  forall x, Permutation x (py_range (length D)) ->
    exists mid, decode (mk_problem D s) x = Some ([s] ++ mid ++ [s]) /\
                Permutation mid (py_range (length D)).
Proof.
  intros Hs.
  assert (Hc : cities_to_visit (mk_problem D s) = py_range (length D))
    by (apply ctv_out, Hs).
  split; [exact Hc|]. split.
  { change (n_var (mk_problem D s)) with (length (cities_to_visit (mk_problem D s))).
    rewrite Hc. apply py_range_length. }
  intros x Hx.
  assert (Hp : Permutation x (py_range (length (cities_to_visit (mk_problem D s)))))
    by (rewrite Hc, py_range_length; exact Hx).
  destruct (decode_perm _ 0 x Hp) as [Hm Hperm].
  eexists. split.
  - unfold decode. rewrite Hm. reflexivity.
  - rewrite Hc in Hperm |- *. exact Hperm.
Qed.

Lemma start_city_unchecked_witness :
  (3 < 0 \/ Z.of_nat (length D3) <= 3) /\
  n_var (mk_problem D3 3) = length D3.
Proof.
  assert (Hs : 3 < 0 \/ Z.of_nat (length D3) <= 3) by (simpl; lia).
  split; [exact Hs|].
  apply (start_city_unchecked D3 3 Hs).
Defined.

(** ** Reversal and sign of the tour length *)

Lemma py_index_some_in {A} (l : list A) (i : Z) (a : A) :
  py_index l i = Some a -> In a l.
Proof.
  unfold py_index. destruct (0 <=? i); [apply nth_error_In|].
  destruct (_ <=? i); [apply nth_error_In | discriminate].
Qed.

Lemma mat_get_in (D : matrix) (i j : Z) (v : Q) :
  mat_get D i j = Some v -> exists row, In row D /\ In v row.
Proof.
  unfold mat_get. destruct (py_index D i) as [row|] eqn:Hr; [|discriminate].
  intros Hv. exists row. split; [eapply py_index_some_in; eauto|].
  eapply py_index_some_in; eauto.
Qed.

Lemma nonneg_check_spec (D : matrix) : nonneg_check D = true -> nonneg D.
Proof.
  unfold nonneg_check, nonneg. intros H i j v Hv.
  destruct (mat_get_in D i j v Hv) as (row & Hrow & Hin).
  rewrite forallb_forall in H. specialize (H row Hrow).
  rewrite forallb_forall in H. apply Qle_bool_iff, H, Hin.
Qed.

Lemma mat_bound_ge (D : matrix) :
  (length D <= mat_bound D)%nat /\
  forall row, In row D -> (length row <= mat_bound D)%nat.
Proof.
  unfold mat_bound. generalize (length D) as n.
  induction D as [|r D IH]; intros n; simpl; [split; [lia | intros _ []]|].
  destruct (IH n) as [H1 H2]. split; [lia|].
  intros row [<-|Hrow]; [lia|]. specialize (H2 row Hrow). lia.
Qed.

Lemma mat_get_out (D : matrix) (i j : Z) :
  (i < - Z.of_nat (mat_bound D) \/ Z.of_nat (mat_bound D) <= i) ->
  mat_get D i j = None /\ mat_get D j i = None.
Proof.
  intros Hi. destruct (mat_bound_ge D) as [HD Hrows]. split.
  - unfold mat_get. rewrite py_index_out by lia. reflexivity.
  - unfold mat_get. destruct (py_index D j) as [row|] eqn:Hr; [|reflexivity].
    apply py_index_some_in, Hrows in Hr. apply py_index_out. lia.
Qed.

Lemma in_zrange (K : nat) (i : Z) :
  - Z.of_nat K <= i < Z.of_nat K -> In i (zrange K).
Proof.
  intros H. unfold zrange. apply in_map_iff.
  exists (Z.to_nat (i + Z.of_nat K)). split; [lia|]. apply in_seq. lia.
Qed.

Lemma opt_Q_eqb_spec (a b : option Q) : opt_Q_eqb a b = true -> a = b.
Proof.
  destruct a as [[n d]|], b as [[n' d']|]; simpl; try discriminate; auto.
  intros H. apply andb_true_iff in H as [H1 H2].
  apply Z.eqb_eq in H1. apply Pos.eqb_eq in H2. subst. reflexivity.
Qed.

Lemma symmetric_check_spec (D : matrix) : symmetric_check D = true -> symmetric D.
Proof.
  unfold symmetric_check, symmetric. intros H i j.
  set (K := mat_bound D) in *.
  destruct (Z_lt_le_dec i (- Z.of_nat K)) as [Hi|Hi];
    [destruct (mat_get_out D i j) as [-> ->]; [lia | reflexivity]|].
  destruct (Z_lt_le_dec i (Z.of_nat K)) as [Hi'|Hi'];
    [|destruct (mat_get_out D i j) as [-> ->]; [lia | reflexivity]].
  destruct (Z_lt_le_dec j (- Z.of_nat K)) as [Hj|Hj];
    [destruct (mat_get_out D j i) as [-> ->]; [lia | reflexivity]|].
  destruct (Z_lt_le_dec j (Z.of_nat K)) as [Hj'|Hj'];
    [|destruct (mat_get_out D j i) as [-> ->]; [lia | reflexivity]].
  rewrite forallb_forall in H. specialize (H i (in_zrange K i ltac:(lia))).
  rewrite forallb_forall in H. specialize (H j (in_zrange K j ltac:(lia))).
  apply opt_Q_eqb_spec, H.
Qed.

Lemma legs_rev (D : matrix) (t : list Z) :
  symmetric D -> legs D (rev t) = option_map (@rev Q) (legs D t).
Proof.
  intros Hsym. induction t as [|a t IH]; [reflexivity|].
  destruct t as [|b t]; [reflexivity|].
  change (rev (a :: b :: t)) with (rev (b :: t) ++ [a]).
  rewrite legs_snoc
    by (simpl; intros H; apply app_eq_nil in H as [_ H]; discriminate).
  replace (last (rev (b :: t)) 0) with b
    by (simpl; rewrite last_last; reflexivity).
  rewrite IH, (Hsym b a).
  change (legs D (a :: b :: t))
    with (match mat_get D a b, legs D (b :: t) with
          | Some d, Some ds => Some (d :: ds)
          | _, _ => None end).
  destruct (legs D (b :: t)), (mat_get D a b); reflexivity.
Qed.

Lemma fold_right_Qplus_acc (ds : list Q) (b : Q) :
  (fold_right Qplus b ds == b + fold_right Qplus 0 ds)%Q.
Proof. induction ds as [|d ds IH]; simpl; [ring|]. rewrite IH. ring. Qed.

Lemma fold_left_Qplus (ds : list Q) (a : Q) :
  (fold_left Qplus ds a == a + fold_right Qplus 0 ds)%Q.
Proof.
  revert a. induction ds as [|d ds IH]; intros a; simpl; [ring|].
  rewrite IH. ring.
Qed.

Lemma fold_right_Qplus_rev (ds : list Q) :
  (fold_right Qplus 0 (rev ds) == fold_right Qplus 0 ds)%Q.
Proof.
  induction ds as [|d ds IH]; simpl; [reflexivity|].
  rewrite fold_right_app. simpl. rewrite fold_right_Qplus_acc, IH. ring.
Qed.

Lemma legs_nonneg (D : matrix) (t : list Z) (ds : list Q) :
  nonneg D -> legs D t = Some ds -> forall d, In d ds -> (0 <= d)%Q.
Proof.
  intros Hn. revert ds. induction t as [|a t IH]; intros ds Hl d Hd.
  - injection Hl as <-. destruct Hd.
  - destruct t as [|b t]; [injection Hl as <-; destruct Hd|].
    change (legs D (a :: b :: t))
      with (match mat_get D a b, legs D (b :: t) with
            | Some d, Some ds => Some (d :: ds)
            | _, _ => None end) in Hl.
    destruct (mat_get D a b) as [d0|] eqn:H0; [|discriminate].
    destruct (legs D (b :: t)) as [ds'|]; [|discriminate].
    injection Hl as <-. destruct Hd as [<-|Hd]; [exact (Hn _ _ _ H0)|].
    apply (IH ds' eq_refl d Hd).
Qed.

Lemma fold_right_Qplus_nonneg (ds : list Q) :
  (forall d, In d ds -> 0 <= d)%Q -> (0 <= fold_right Qplus 0 ds)%Q.
Proof.
  induction ds as [|d ds IH]; intros H; simpl; [lra|].
  assert (0 <= d)%Q by (apply H; left; reflexivity).
  assert (0 <= fold_right Qplus 0 ds)%Q by (apply IH; intros; apply H; right; assumption).
  lra.
Qed.




(** ** Claims on the solver runs *)

Lemma mat_get_square (D : matrix) (i j : Z) :
  square D -> 0 <= i < Z.of_nat (length D) -> 0 <= j < Z.of_nat (length D) ->
  exists v, mat_get D i j = Some v.
Proof.
  intros Hsq Hi Hj. unfold mat_get.
  rewrite (py_index_in D i []) by exact Hi.
  assert (Hrow : length (nth (Z.to_nat i) D []) = length D)
    by (apply Hsq, nth_In; lia).
  eexists. apply (py_index_in _ j 0%Q). lia.
Qed.

Lemma legs_square (D : matrix) (t : list Z) :
  square D -> (forall a, In a t -> 0 <= a < Z.of_nat (length D)) ->
  exists ds, legs D t = Some ds.
Proof.
  intros Hsq. induction t as [|a t IH]; intros Hin; [eexists; reflexivity|].
  destruct t as [|b t]; [eexists; reflexivity|].
  change (legs D (a :: b :: t))
    with (match mat_get D a b, legs D (b :: t) with
          | Some d, Some ds => Some (d :: ds)
          | _, _ => None end).
  destruct (mat_get_square D a b Hsq) as [d ->];
    [apply Hin; simpl; tauto | apply Hin; simpl; tauto |].
  destruct IH as [ds ->]; [intros c Hc; apply Hin; right; exact Hc|].
  eexists. reflexivity.
Qed.

Lemma evaluate_empty_ctv (p : TSPProblem) (x : list Z) :
  cities_to_visit p = [] -> evaluate p x = None.
Proof.
  intros Hc. rewrite evaluate_closed, Hc.
  destruct x as [|i x]; [reflexivity|]. simpl.
  rewrite py_index_out by (simpl; lia). reflexivity.
Qed.

Lemma compare_loop_app minimize now self pop_size n_gen l1 l2 res k :
  compare_loop minimize now self pop_size n_gen (l1 ++ l2) res k =
  match compare_loop minimize now self pop_size n_gen l1 res k with
  | None => None
  | Some (res', k') => compare_loop minimize now self pop_size n_gen l2 res' k'
  end.
Proof.
  revert res k. induction l1 as [|c l1 IH]; intros res k; [reflexivity|].
  simpl. destruct (compare_step _ _ _ _ _ _ _ _) as [[res' k']|]; [|reflexivity].
  apply IH.
Qed.

Section SolverRuns.

Variable minimize : TSPProblem -> GA -> Termination -> Z -> list Z.
Variable now : nat -> Q.

Lemma ga_is_engine self s pop_size n_gen k :
  solve_with_genetic_algorithm minimize now self s pop_size n_gen k =
  solve_engine minimize now primary_params self s pop_size n_gen k.
Proof.
  unfold solve_with_genetic_algorithm, solve_engine. simpl.
  split_runs; reflexivity.
Qed.

Lemma modified_is_engine self s pop_size n_gen k :
  solve_with_modified_ga minimize now self s pop_size n_gen k =
  solve_engine minimize now variant_params self s pop_size n_gen k.
Proof.
  unfold solve_with_modified_ga, solve_engine. simpl.
  split_runs; reflexivity.
Qed.

(** A run on a square matrix with at least two cities and a valid start city
    succeeds whenever the library returns a permutation. *)
Lemma engine_run_ok prm self s pop_size n_gen k :
  square (solver_distance_matrix self) ->
  0 <= s < Z.of_nat (length (solver_distance_matrix self)) ->
  (2 <= length (solver_distance_matrix self))%nat ->
  engine_perm_at minimize (solver_distance_matrix self) s pop_size n_gen ->
  exists r x,
    solve_engine minimize now prm self s pop_size n_gen k = Some r /\
    Permutation x (py_range (n_var (mk_problem (solver_distance_matrix self) s))) /\
    tour r = s :: map (fun i => nth (Z.to_nat i)
                 (cities_to_visit (mk_problem (solver_distance_matrix self) s)) 0) x
               ++ [s] /\
    tour_length (solver_distance_matrix self) (tour r) = Some (distance r) /\
    generations r = n_gen.
Proof.
  intros Hsq Hs HN Hperm.
  set (D := solver_distance_matrix self) in *.
  set (p := mk_problem D s).
  set (ctv := cities_to_visit p).
  unfold solve_engine. fold D. fold p.
  set (X := minimize p _ _ _).
  assert (Hp : Permutation X (py_range (length ctv))) by (apply Hperm; reflexivity).
  destruct (decode_perm ctv 0 X Hp) as [Hm HP].
  set (mid := map (fun i => nth (Z.to_nat i) ctv 0) X) in *.
  assert (Hlen : S (length ctv) = length D) by (apply ctv_length_in; exact Hs).
  assert (Hin : forall a, In a (s :: mid ++ [s]) -> 0 <= a < Z.of_nat (length D)).
  { intros a Ha. simpl in Ha. rewrite in_app_iff in Ha. simpl in Ha.
    destruct Ha as [<-|[Ha|[<-|[]]]]; try exact Hs.
    apply (Permutation_in _ HP) in Ha. apply in_ctv in Ha. tauto. }
  destruct (legs_square D _ Hsq Hin) as [ds Hds].
  assert (Hev : evaluate p X = Some (fold_left Qplus ds 0%Q)).
  { rewrite evaluate_closed. change (cities_to_visit p) with ctv. rewrite Hm.
    clearbody mid. destruct mid as [|c cs].
    - apply Permutation_length in HP. simpl in HP. lia.
    - unfold tour_length. change (distance_matrix p) with D.
      change (start_city p) with s. rewrite Hds. reflexivity. }
  assert (Hdec : decode p X = Some (s :: mid ++ [s]))
    by (unfold decode; change (cities_to_visit p) with ctv; rewrite Hm; reflexivity).
  rewrite Hev, Hdec. eexists. exists X. split; [reflexivity|].
  split; [exact Hp|]. split; [reflexivity|]. split; [|reflexivity].
  simpl. unfold tour_length. rewrite Hds. reflexivity.
Qed.

(** C3: two runs with the same solver, start city, [pop_size] and [n_gen]
    (seed and operator probabilities are fixed by each method) agree in
    everything but the wall-clock time, whatever the clock readings. *)
Theorem run_deterministic (now' : nat -> Q) self s pop_size n_gen k k' :
  outcome (solve_with_genetic_algorithm minimize now self s pop_size n_gen k) =
  outcome (solve_with_genetic_algorithm minimize now' self s pop_size n_gen k') /\
  outcome (solve_with_modified_ga minimize now self s pop_size n_gen k) =
  outcome (solve_with_modified_ga minimize now' self s pop_size n_gen k').
Proof.
  unfold solve_with_genetic_algorithm, solve_with_modified_ga. simpl.
  split; split_runs; reflexivity.
Qed.

(** C9: the primary and the modified run are the parameterised engine at
    two parameter tuples: (library default, library default, 42, "GA") and
    (0.95, 0.2, 123, "GA-2"). *)
Theorem primary_and_variant_are_one_engine self s pop_size n_gen k :
  solve_with_genetic_algorithm minimize now self s pop_size n_gen k =
  solve_engine minimize now primary_params self s pop_size n_gen k /\
  solve_with_modified_ga minimize now self s pop_size n_gen k =
  solve_engine minimize now variant_params self s pop_size n_gen k.
Proof. split; [apply ga_is_engine | apply modified_is_engine]. Qed.

Lemma engine_two_city prm self s pop_size n_gen k :
  length (solver_distance_matrix self) = 2%nat ->
  square (solver_distance_matrix self) ->
  (s = 0 \/ s = 1) ->
  engine_perm_at minimize (solver_distance_matrix self) s pop_size n_gen ->
  exists r, solve_engine minimize now prm self s pop_size n_gen k = Some r /\
            two_city_result (solver_distance_matrix self) s r.
Proof.
  intros HN Hsq Hs Hperm.
  set (D := solver_distance_matrix self) in *.
  assert (H2 : (2 <= length D)%nat) by lia.
  assert (Hsr : 0 <= s < Z.of_nat (length D)) by (rewrite HN; lia).
  destruct (engine_run_ok prm self s pop_size n_gen k Hsq Hsr H2 Hperm)
    as (r & x & Hr & Hx & Ht & Hd & _).
  exists r. split; [exact Hr|]. fold D in Ht, Hd, Hx.
  assert (Hctv : cities_to_visit (mk_problem D s) = [1 - s]).
  { simpl (cities_to_visit _). rewrite HN. destruct Hs as [-> | ->]; reflexivity. }
  assert (Hx1 : x = [0]).
  { change (n_var (mk_problem D s)) with (length (cities_to_visit (mk_problem D s))) in Hx.
    rewrite Hctv in Hx. simpl in Hx.
    apply Permutation_sym, Permutation_length_1_inv in Hx. exact Hx. }
  rewrite Hx1, Hctv in Ht.
  assert (Ht' : tour r = [s; 1 - s; s]) by (rewrite Ht; reflexivity).
  split; [exact Ht'|]. rewrite Ht' in Hd.
  assert (Ho : 0 <= 1 - s < Z.of_nat (length D)) by (rewrite HN; lia).
  destruct (mat_get_square D s (1 - s) Hsq Hsr Ho) as [a Ha].
  destruct (mat_get_square D (1 - s) s Hsq Ho Hsr) as [b Hb].
  exists a, b. split; [exact Ha|]. split; [exact Hb|].
  unfold tour_length in Hd. cbn [legs] in Hd. rewrite Ha, Hb in Hd.
  cbn in Hd. injection Hd as Hd. rewrite <- Hd.
  split; [ring|]. intros <-. ring.
Qed.

(** C4 (as the code has it): the solver validates no configuration and
    raises no configuration error.  An empty matrix makes a run raise only
    through the [IndexError] of [_evaluate] on the empty permutation;
    otherwise, on a square matrix with at least two cities and a valid start
    city, for every [pop_size >= 1] ([pop_size = 1] included) and
    [n_gen >= 1], both runs return a complete result whose [generations]
    field is [n_gen] whenever the GA library returns a permutation for that
    [pop_size] and [n_gen]. *)
Theorem no_configuration_validation self s pop_size n_gen k :
  (solver_distance_matrix self = [] ->
     solve_with_genetic_algorithm minimize now self s pop_size n_gen k = None /\
     solve_with_modified_ga minimize now self s pop_size n_gen k = None) /\
  (square (solver_distance_matrix self) ->
   0 <= s < Z.of_nat (length (solver_distance_matrix self)) ->
   (2 <= length (solver_distance_matrix self))%nat ->
   1 <= pop_size -> 1 <= n_gen ->
   engine_perm_at minimize (solver_distance_matrix self) s pop_size n_gen ->
   (exists r, solve_with_genetic_algorithm minimize now self s pop_size n_gen k = Some r /\
              generations r = n_gen) /\
   (exists r, solve_with_modified_ga minimize now self s pop_size n_gen k = Some r /\
              generations r = n_gen)).
Proof.
  rewrite ga_is_engine, modified_is_engine. split.
  - intros HD. unfold solve_engine.
    rewrite !evaluate_empty_ctv by (rewrite HD; reflexivity). split; reflexivity.
  - intros Hsq Hs HN _ _ Hperm. split.
    + destruct (engine_run_ok primary_params self s pop_size n_gen k Hsq Hs HN Hperm)
        as (r & _ & Hr & _ & _ & _ & Hg). eauto.
    + destruct (engine_run_ok variant_params self s pop_size n_gen k Hsq Hs HN Hperm)
        as (r & _ & Hr & _ & _ & _ & Hg). eauto.
Qed.

(** C5 (as the code has it): a run that raises aborts [compare_algorithms]:
    once the runs for the start cities [l1] are done, a raising run for the
    next start city [s] makes the whole call raise, so nothing is returned,
    [self.results] is not set, and the runs for the later start cities [l2]
    are never made, whatever they are. *)
Theorem compare_aborts_on_failure self pop_size n_gen l1 s l2 k res' k' :
  compare_loop minimize now self pop_size n_gen l1 [] k = Some (res', k') ->
  (solve_with_genetic_algorithm minimize now self s pop_size n_gen k' = None \/
   solve_with_modified_ga minimize now self s pop_size n_gen (k' + 2) = None) ->
  compare_algorithms minimize now self (l1 ++ s :: l2) pop_size n_gen k = None.
Proof.
  intros H1 H2. unfold compare_algorithms.
  rewrite compare_loop_app, H1. simpl. unfold compare_step.
  destruct H2 as [H2|H2].
  - rewrite H2. reflexivity.
  - destruct (solve_with_genetic_algorithm _ _ _ _ _ _ _); [|reflexivity].
    rewrite H2. reflexivity.
Qed.


End SolverRuns.

(** ** Concrete runs *)

Lemma square_D3 : square D3.
Proof. intros row Hrow. simpl in Hrow. intuition subst; reflexivity. Qed.

Lemma square_D2 : square D2.
Proof. intros row Hrow. simpl in Hrow. intuition subst; reflexivity. Qed.

Lemma id_engine_perm (D : matrix) (s : Z) : engine_perm id_engine D s.
Proof. intros cfg term seed. apply Permutation_refl. Qed.

Lemma id_engine_perm_at (D : matrix) (s size gens : Z) :
  engine_perm_at id_engine D s size gens.
Proof. intros cfg seed _. apply Permutation_refl. Qed.

Lemma no_configuration_validation_witness :
  square D3 /\ engine_perm_at id_engine D3 0 1 500 /\
  exists r, solve_with_genetic_algorithm id_engine clock0 (mk_solver [] D3) 0 1 500 0
            = Some r /\ generations r = 500.
Proof.
  split; [exact square_D3|]. split; [apply id_engine_perm_at|].
  refine (proj1 (proj2 (no_configuration_validation id_engine clock0
                          (mk_solver [] D3) 0 1 500 0) square_D3 _ _ _ _ _)).
  - simpl. lia.
  - simpl. lia.
  - lia.
  - lia.
  - apply id_engine_perm_at.
Defined.

(** C4 refuted: with a library returning a permutation, a run with
    [pop_size = 1] raises nothing and reports [500] generations. *)
Lemma pop_size_one_runs :
  exists r, solve_with_genetic_algorithm id_engine clock0 (mk_solver [] D3) 0 1 500 0
            = Some r /\ generations r = 500.
Proof. eexists. split; reflexivity. Qed.

Lemma compare_aborts_on_failure_witness :
  compare_loop id_engine clock0 (mk_solver [] D3) 10 50 [] [] 0 = Some ([], 0%nat) /\
  solve_with_genetic_algorithm id_engine clock0 (mk_solver [] D3) 5 10 50 0 = None /\
  compare_algorithms id_engine clock0 (mk_solver [] D3) ([] ++ 5 :: [0]) 10 50 0 = None.
Proof.
  assert (H1 : compare_loop id_engine clock0 (mk_solver [] D3) 10 50 [] [] 0
               = Some ([], 0%nat)) by reflexivity.
  assert (H2 : solve_with_genetic_algorithm id_engine clock0 (mk_solver [] D3) 5 10 50 0
               = None) by reflexivity.
  split; [exact H1|]. split; [exact H2|].
  apply (compare_aborts_on_failure id_engine clock0 (mk_solver [] D3) 10 50 [] 5 [0]
           0 [] 0 H1 (or_introl H2)).
Defined.

(** C5 refuted: the start city [5] of a three-city matrix makes its run
    raise, and [compare_algorithms] on [[5, 0]] raises although the run for
    the start city [0] on its own returns a result. *)
Lemma compare_failure_aborts_siblings :
  compare_algorithms id_engine clock0 (mk_solver [] D3) [5; 0] 10 50 0 = None /\
  exists r, solve_with_genetic_algorithm id_engine clock0 (mk_solver [] D3) 0 10 50 4
            = Some r.
Proof. split; [reflexivity | eexists; reflexivity]. Qed.



(** ** Further properties of a solver run *)

Lemma map_opt_in {A B} (f : A -> option B) (l : list A) (ys : list B) :
  map_opt f l = Some ys -> forall y, In y ys -> exists x, In x l /\ f x = Some y.
Proof.
  revert ys. induction l as [|a l IH]; intros ys H y Hy; simpl in H.
  - injection H as <-. destruct Hy.
  - destruct (f a) as [b|] eqn:Ha; [|discriminate].
    destruct (map_opt f l) as [bs|] eqn:Hl; [|discriminate].
    injection H as <-. destruct Hy as [<-|Hy].
    + exists a. split; [left; reflexivity | exact Ha].
    + destruct (IH bs eq_refl y Hy) as (x & Hx & Hfx).
      exists x. split; [right; exact Hx | exact Hfx].
Qed.

(** What a successful run returns, whatever the library's output. *)
Lemma engine_result minimize now prm self s pop_size n_gen k r :
  solve_engine minimize now prm self s pop_size n_gen k = Some r ->
  exists x cs,
    map_opt (py_index (cities_to_visit (mk_problem (solver_distance_matrix self) s))) x
      = Some cs /\
    cs <> [] /\ tour r = s :: cs ++ [s] /\
    Some (distance r) = tour_length (solver_distance_matrix self) (tour r).
Proof.
  unfold solve_engine.
  set (p := mk_problem (solver_distance_matrix self) s).
  set (X := minimize p _ _ _).
  destruct (evaluate p X) as [F|] eqn:He; [|discriminate].
  destruct (decode p X) as [t|] eqn:Hd; [|discriminate].
  intros Hr. injection Hr as <-. simpl.
  unfold decode in Hd.
  destruct (map_opt (py_index (cities_to_visit p)) X) as [cs|] eqn:Hm; [|discriminate].
  injection Hd as <-.
  rewrite evaluate_closed, Hm in He.
  exists X, cs. split; [exact Hm|].
  destruct cs as [|c cs]; [discriminate|].
  split; [discriminate|]. split; [reflexivity|]. symmetry. exact He.
Qed.

Lemma run_is_engine minimize now self s pop_size n_gen k r :
  (solve_with_genetic_algorithm minimize now self s pop_size n_gen k = Some r \/
   solve_with_modified_ga minimize now self s pop_size n_gen k = Some r) ->
  exists prm, solve_engine minimize now prm self s pop_size n_gen k = Some r.
Proof.
  intros [H|H]; [rewrite ga_is_engine in H | rewrite modified_is_engine in H]; eauto.
Qed.

(** The distance a run reports is the length of the tour it reports: the
    sum of [D[t_k][t_{k+1}]] over the consecutive cities of [tour], whatever
    permutation the library returned. *)
Theorem run_distance_is_tour_length minimize now self s pop_size n_gen k r :
  (solve_with_genetic_algorithm minimize now self s pop_size n_gen k = Some r \/
   solve_with_modified_ga minimize now self s pop_size n_gen k = Some r) ->
  Some (distance r) = tour_length (solver_distance_matrix self) (tour r).
Proof.
  intros H. destruct (run_is_engine _ _ _ _ _ _ _ _ H) as [prm Hr].
  destruct (engine_result _ _ _ _ _ _ _ _ _ Hr) as (x & cs & _ & _ & _ & Hd).
  exact Hd.
Qed.

(** A reported tour starts and ends at the start city and visits at least
    one city in between; every city in between is a city of
    [cities_to_visit], so an index in [0..N-1] other than the start city,
    whatever the library returned. *)
Theorem run_tour_shape minimize now self s pop_size n_gen k r :
  (solve_with_genetic_algorithm minimize now self s pop_size n_gen k = Some r \/
   solve_with_modified_ga minimize now self s pop_size n_gen k = Some r) ->
  exists mid, tour r = s :: mid ++ [s] /\ mid <> [] /\
    forall c, In c mid ->
      0 <= c < Z.of_nat (length (solver_distance_matrix self)) /\ c <> s.
Proof.
  intros H. destruct (run_is_engine _ _ _ _ _ _ _ _ H) as [prm Hr].
  destruct (engine_result _ _ _ _ _ _ _ _ _ Hr) as (x & cs & Hm & Hne & Ht & _).
  exists cs. split; [exact Ht|]. split; [exact Hne|].
  intros c Hc. destruct (map_opt_in _ _ _ Hm c Hc) as (i & _ & Hi).
  apply py_index_some_in, in_ctv in Hi. exact Hi.
Qed.

Lemma run_shape_witness_run :
  solve_with_genetic_algorithm id_engine clock0 (mk_solver [] D3) 0 10 50 0 =
  Some {| algorithm := "Genetic Algorithm (GA)"; res_start_city := 0;
          tour := [0; 1; 2; 0]; distance := (0 + 2 + 6 + 9)%Q;
          execution_time := (clock0 1 - clock0 0)%Q; generations := 50 |}.
Proof. reflexivity. Qed.

Lemma run_distance_is_tour_length_witness :
  Some (0 + 2 + 6 + 9)%Q = tour_length D3 [0; 1; 2; 0].
Proof.
  exact (run_distance_is_tour_length id_engine clock0 (mk_solver [] D3) 0 10 50 0 _
           (or_introl run_shape_witness_run)).
Defined.

Lemma run_tour_shape_witness :
  exists mid, [0; 1; 2; 0] = 0 :: mid ++ [0] /\ mid <> [] /\
    forall c, In c mid -> 0 <= c < Z.of_nat (length D3) /\ c <> 0.
Proof.
  exact (run_tour_shape id_engine clock0 (mk_solver [] D3) 0 10 50 0 _
           (or_introl run_shape_witness_run)).
Defined.

(** A start city at or beyond the number of cities makes every run raise
    (the [IndexError] of [distance_matrix[start_city]]), whatever the
    library returns. *)
Theorem run_start_city_too_large minimize now self s pop_size n_gen k :
  Z.of_nat (length (solver_distance_matrix self)) <= s ->
  solve_with_genetic_algorithm minimize now self s pop_size n_gen k = None /\
  solve_with_modified_ga minimize now self s pop_size n_gen k = None.
Proof.
  intros Hs.
  assert (He : forall x, evaluate (mk_problem (solver_distance_matrix self) s) x = None).
  { intros x. rewrite evaluate_closed.
    destruct (map_opt _ x) as [[|c cs]|]; [reflexivity| |reflexivity].
    unfold tour_length. simpl (legs _ _). unfold mat_get at 1.
    rewrite (py_index_out (distance_matrix (mk_problem (solver_distance_matrix self) s)))
      by (simpl; lia).
    reflexivity. }
  rewrite ga_is_engine, modified_is_engine. unfold solve_engine.
  rewrite !He. split; reflexivity.
Qed.

Lemma run_start_city_too_large_witness :
  Z.of_nat (length (solver_distance_matrix (mk_solver [] D3))) <= 3 /\
  solve_with_genetic_algorithm id_engine clock0 (mk_solver [] D3) 3 10 50 0 = None.
Proof.
  assert (Hs : Z.of_nat (length (solver_distance_matrix (mk_solver [] D3))) <= 3)
    by (simpl; lia).
  split; [exact Hs|].
  exact (proj1 (run_start_city_too_large id_engine clock0 (mk_solver [] D3) 3 10 50 0 Hs)).
Defined.

Lemma py_index_norm {A} (l : list A) (i : Z) :
  - Z.of_nat (length l) <= i < Z.of_nat (length l) ->
  py_index l i = py_index l (py_norm (length l) i).
Proof.
  intros Hi. unfold py_norm. destruct (Z.ltb_spec i 0); [|reflexivity].
  rewrite (py_index_nonneg l (Z.of_nat (length l) + i)) by lia.
  unfold py_index. destruct (Z.leb_spec 0 i); [lia|].
  destruct (Z.leb_spec (- Z.of_nat (length l)) i); [reflexivity | lia].
Qed.

Lemma mat_get_norm (D : matrix) (a b : Z) :
  square D ->
  - Z.of_nat (length D) <= a < Z.of_nat (length D) ->
  - Z.of_nat (length D) <= b < Z.of_nat (length D) ->
  mat_get D a b = mat_get D (py_norm (length D) a) (py_norm (length D) b).
Proof.
  intros Hsq Ha Hb. unfold mat_get. rewrite <- py_index_norm by exact Ha.
  destruct (py_index D a) as [row|] eqn:Hr; [|reflexivity].
  apply py_index_some_in, Hsq in Hr. rewrite <- Hr.
  apply py_index_norm. lia.
Qed.

Lemma legs_norm (D : matrix) (t : list Z) :
  square D ->
  (forall a, In a t -> - Z.of_nat (length D) <= a < Z.of_nat (length D)) ->
  legs D (map (py_norm (length D)) t) = legs D t.
Proof.
  intros Hsq. induction t as [|a t IH]; intros Hin; [reflexivity|].
  destruct t as [|b t]; [reflexivity|].
  change (legs D (map (py_norm (length D)) (a :: b :: t)))
    with (match mat_get D (py_norm (length D) a) (py_norm (length D) b),
                legs D (map (py_norm (length D)) (b :: t)) with
          | Some d, Some ds => Some (d :: ds)
          | _, _ => None end).
  change (legs D (a :: b :: t))
    with (match mat_get D a b, legs D (b :: t) with
          | Some d, Some ds => Some (d :: ds)
          | _, _ => None end).
  rewrite <- mat_get_norm by (exact Hsq || (apply Hin; simpl; tauto)).
  rewrite IH by (intros c Hc; apply Hin; right; exact Hc).
  reflexivity.
Qed.

Lemma engine_negative_start minimize now prm self s pop_size n_gen k :
  square (solver_distance_matrix self) ->
  - Z.of_nat (length (solver_distance_matrix self)) <= s < 0 ->
  engine_perm minimize (solver_distance_matrix self) s ->
  exists r mid,
    solve_engine minimize now prm self s pop_size n_gen k = Some r /\
    tour r = s :: mid ++ [s] /\
    Permutation mid (py_range (length (solver_distance_matrix self))) /\
    Some (distance r) =
    tour_length (solver_distance_matrix self)
      ((Z.of_nat (length (solver_distance_matrix self)) + s) :: mid
         ++ [Z.of_nat (length (solver_distance_matrix self)) + s]).
Proof.
  intros Hsq Hs Hperm.
  set (D := solver_distance_matrix self) in *.
  set (N := length D) in *.
  set (p := mk_problem D s).
  assert (Hc : cities_to_visit p = py_range N) by (apply ctv_out; lia).
  unfold solve_engine. fold D. fold p.
  set (X := minimize p _ _ _).
  assert (Hp : Permutation X (py_range (length (cities_to_visit p)))) by apply Hperm.
  destruct (decode_perm (cities_to_visit p) 0 X Hp) as [Hm HP].
  set (mid := map _ X) in *. rewrite Hc in HP.
  assert (Hmid : forall c, In c mid -> 0 <= c < Z.of_nat N)
    by (intros c Hin; apply in_py_range, (Permutation_in _ HP), Hin).
  assert (Hin : forall a, In a ((Z.of_nat N + s) :: mid ++ [Z.of_nat N + s]) ->
                          0 <= a < Z.of_nat N).
  { intros a Ha. simpl in Ha. rewrite in_app_iff in Ha. simpl in Ha.
    destruct Ha as [<-|[Ha|[<-|[]]]]; [lia | apply Hmid, Ha | lia]. }
  destruct (legs_square D _ Hsq Hin) as [ds Hds].
  assert (Hmap : map (py_norm N) (s :: mid ++ [s]) =
                 (Z.of_nat N + s) :: mid ++ [Z.of_nat N + s]).
  { simpl. rewrite map_app. simpl.
    unfold py_norm at 1 3. destruct (Z.ltb_spec s 0); [|lia].
    f_equal. f_equal. rewrite <- (map_id mid) at 2. apply map_ext_in.
    intros c Hcm. unfold py_norm. destruct (Z.ltb_spec c 0); [|reflexivity].
    specialize (Hmid c Hcm). lia. }
  assert (Hlegs : legs D (s :: mid ++ [s]) = Some ds).
  { rewrite <- legs_norm with (D := D) by
      (exact Hsq ||
       (intros a Ha; simpl in Ha; rewrite in_app_iff in Ha; simpl in Ha;
        destruct Ha as [<-|[Ha|[<-|[]]]]; [lia | specialize (Hmid a Ha); lia | lia])).
    fold N. rewrite Hmap. exact Hds. }
  assert (Hev : evaluate p X = Some (fold_left Qplus ds 0%Q)).
  { rewrite evaluate_closed, Hm.
    clearbody mid. destruct mid as [|c cs].
    - apply Permutation_length in HP. rewrite py_range_length in HP.
      simpl in HP. lia.
    - unfold tour_length. change (distance_matrix p) with D.
      change (start_city p) with s. rewrite Hlegs. reflexivity. }
  assert (Hdec : decode p X = Some (s :: mid ++ [s]))
    by (unfold decode; rewrite Hm; reflexivity).
  rewrite Hev, Hdec. eexists. exists mid. split; [reflexivity|].
  split; [reflexivity|]. split; [exact HP|].
  unfold tour_length. rewrite Hds. reflexivity.
Qed.

(** A negative start city [s] in [-N..-1] is accepted (Python indexing
    counts it from the end): whenever the library returns a permutation,
    both runs succeed, the reported tour is [s, ..., s] around a
    permutation of all [N] cities (city [N + s] included), and the reported
    distance is that of the same tour started and ended at city [N + s]. *)
Theorem run_negative_start_wraps minimize now self s pop_size n_gen k :
  square (solver_distance_matrix self) ->
  - Z.of_nat (length (solver_distance_matrix self)) <= s < 0 ->
  engine_perm minimize (solver_distance_matrix self) s ->
  (exists r, solve_with_genetic_algorithm minimize now self s pop_size n_gen k = Some r) /\
  (exists r, solve_with_modified_ga minimize now self s pop_size n_gen k = Some r) /\
  forall r,
    (solve_with_genetic_algorithm minimize now self s pop_size n_gen k = Some r \/
     solve_with_modified_ga minimize now self s pop_size n_gen k = Some r) ->
    exists mid, tour r = s :: mid ++ [s] /\
      Permutation mid (py_range (length (solver_distance_matrix self))) /\
      Some (distance r) =
      tour_length (solver_distance_matrix self)
        ((Z.of_nat (length (solver_distance_matrix self)) + s) :: mid
           ++ [Z.of_nat (length (solver_distance_matrix self)) + s]).
Proof.
  intros Hsq Hs Hperm. rewrite ga_is_engine, modified_is_engine.
  split; [|split].
  - destruct (engine_negative_start minimize now primary_params self s pop_size n_gen k
                Hsq Hs Hperm) as (r & _ & Hr & _). eauto.
  - destruct (engine_negative_start minimize now variant_params self s pop_size n_gen k
                Hsq Hs Hperm) as (r & _ & Hr & _). eauto.
  - intros r [Hr|Hr].
    + destruct (engine_negative_start minimize now primary_params self s pop_size n_gen k
                  Hsq Hs Hperm) as (r' & mid & Hr' & Ht & HP & Hd).
      rewrite Hr in Hr'. injection Hr' as <-. eauto.
    + destruct (engine_negative_start minimize now variant_params self s pop_size n_gen k
                  Hsq Hs Hperm) as (r' & mid & Hr' & Ht & HP & Hd).
      rewrite Hr in Hr'. injection Hr' as <-. eauto.
Qed.

Lemma run_negative_start_wraps_witness :
  square D3 /\ - Z.of_nat (length D3) <= -1 < 0 /\ engine_perm id_engine D3 (-1) /\
  exists r, solve_with_genetic_algorithm id_engine clock0 (mk_solver [] D3) (-1) 10 50 0
            = Some r.
Proof.
  assert (Hs : - Z.of_nat (length (solver_distance_matrix (mk_solver [] D3))) <= -1 < 0)
    by (simpl; lia).
  split; [exact square_D3|]. split; [exact Hs|]. split; [apply id_engine_perm|].
  exact (proj1 (run_negative_start_wraps id_engine clock0 (mk_solver [] D3) (-1) 10 50 0
                  square_D3 Hs (id_engine_perm D3 (-1)))).
Defined.

(** ** The result dict of [compare_algorithms] *)

Lemma dict_set_keys {V} (d : list (Z * V)) (k : Z) (v : V) :
  map fst (dict_set d k v) =
  if existsb (Z.eqb k) (map fst d) then map fst d else map fst d ++ [k].
Proof.
  induction d as [|[k' v'] d IH]; [reflexivity|]. simpl.
  rewrite (Z.eqb_sym k k'). destruct (k' =? k) eqn:E; simpl.
  - apply Z.eqb_eq in E. subst. reflexivity.
  - rewrite IH. destruct (existsb _ _); reflexivity.
Qed.

Lemma dict_get_set_same {V} (d : list (Z * V)) (k : Z) (v : V) :
  dict_get (dict_set d k v) k = Some v.
Proof.
  induction d as [|[k' v'] d IH]; simpl; [rewrite Z.eqb_refl; reflexivity|].
  destruct (k' =? k) eqn:E; simpl; [rewrite Z.eqb_refl; reflexivity|].
  rewrite E. exact IH.
Qed.

Lemma dict_get_set_other {V} (d : list (Z * V)) (k t : Z) (v : V) :
  k <> t -> dict_get (dict_set d k v) t = dict_get d t.
Proof.
  intros Hne. induction d as [|[k' v'] d IH]; simpl.
  - destruct (Z.eqb_spec k t); [contradiction | reflexivity].
  - destruct (k' =? k) eqn:E; simpl.
    + apply Z.eqb_eq in E. subst k'.
      destruct (Z.eqb_spec k t); [contradiction | reflexivity].
    + destruct (k' =? t); [reflexivity | exact IH].
Qed.

Lemma existsb_eqb_In (x : Z) (l : list Z) : existsb (Z.eqb x) l = true <-> In x l.
Proof.
  rewrite existsb_exists. split.
  - intros (y & Hy & E). apply Z.eqb_eq in E. subst. exact Hy.
  - intros Hx. exists x. split; [exact Hx | apply Z.eqb_refl].
Qed.

Lemma dedup_fold_spec (l acc : list Z) :
  NoDup acc ->
  NoDup (fold_left dedup_step l acc) /\
  (forall x, In x (fold_left dedup_step l acc) <-> In x acc \/ In x l).
Proof.
  revert acc. induction l as [|y l IH]; intros acc Hnd; simpl.
  - split; [exact Hnd | intros x; tauto].
  - assert (Hnd' : NoDup (dedup_step acc y) /\
                   forall x, In x (dedup_step acc y) <-> In x acc \/ x = y).
    { unfold dedup_step. destruct (existsb (Z.eqb y) acc) eqn:E.
      - apply existsb_eqb_In in E. split; [exact Hnd|].
        intros x. split; [tauto|]. intros [H|<-]; assumption.
      - split.
        + apply NoDup_app; [exact Hnd | constructor; [intros []|constructor] |].
          intros x Hx [<-|[]]. apply Bool.not_true_iff_false in E.
          apply E, existsb_eqb_In, Hx.
        + intros x. rewrite in_app_iff. simpl. intuition. }
    destruct Hnd' as [Hnd' Hin'].
    destruct (IH _ Hnd') as [H1 H2]. split; [exact H1|].
    intros x. rewrite H2, Hin'. intuition.
Qed.

Lemma py_dedup_spec (l : list Z) :
  NoDup (py_dedup l) /\ (forall x, In x (py_dedup l) <-> In x l).
Proof.
  destruct (dedup_fold_spec l [] (NoDup_nil _)) as [H1 H2].
  split; [exact H1|]. intros x. rewrite H2. simpl. tauto.
Qed.

Section CompareRuns.

Variable minimize : TSPProblem -> GA -> Termination -> Z -> list Z.
Variable now : nat -> Q.

Lemma compare_step_keys self pop_size n_gen res k s res' k' :
  compare_step minimize now self pop_size n_gen res k s = Some (res', k') ->
  map fst res' = dedup_step (map fst res) s.
Proof.
  unfold compare_step.
  destruct (solve_with_genetic_algorithm _ _ _ _ _ _ _); [|discriminate].
  destruct (solve_with_modified_ga _ _ _ _ _ _ _); [|discriminate].
  intros H. injection H as <- _.
  rewrite !dict_set_keys. unfold dedup_step.
  destruct (existsb (Z.eqb s) (map fst res)) eqn:E; rewrite ?E.
  - reflexivity.
  - rewrite existsb_app. simpl. rewrite Z.eqb_refl, Bool.orb_true_r.
    rewrite existsb_app. simpl. rewrite Z.eqb_refl, Bool.orb_true_r. reflexivity.
Qed.

Lemma compare_loop_keys self pop_size n_gen l res k res' k' :
  compare_loop minimize now self pop_size n_gen l res k = Some (res', k') ->
  map fst res' = fold_left dedup_step l (map fst res).
Proof.
  revert res k. induction l as [|s l IH]; intros res k H; simpl in H.
  - injection H as <- _. reflexivity.
  - destruct (compare_step _ _ _ _ _ _ _ _) as [[res1 k1]|] eqn:E; [|discriminate].
    simpl. rewrite <- (compare_step_keys _ _ _ _ _ _ _ _ E). exact (IH _ _ H).
Qed.

Lemma compare_loop_frame self pop_size n_gen l res k res' k' t :
  compare_loop minimize now self pop_size n_gen l res k = Some (res', k') ->
  ~ In t l -> dict_get res' t = dict_get res t.
Proof.
  revert res k. induction l as [|s l IH]; intros res k H Ht; simpl in H.
  - injection H as <- _. reflexivity.
  - destruct (compare_step _ _ _ _ _ _ _ _) as [[res1 k1]|] eqn:E; [|discriminate].
    rewrite (IH _ _ H) by (intros Hin; apply Ht; right; exact Hin).
    unfold compare_step in E.
    destruct (solve_with_genetic_algorithm _ _ _ _ _ _ _); [|discriminate].
    destruct (solve_with_modified_ga _ _ _ _ _ _ _); [|discriminate].
    injection E as <- _.
    assert (Hne : s <> t) by (intros <-; apply Ht; left; reflexivity).
    rewrite !dict_get_set_other by exact Hne. reflexivity.
Qed.

Lemma compare_loop_entries self pop_size n_gen l res k res' k' s :
  compare_loop minimize now self pop_size n_gen l res k = Some (res', k') ->
  In s l ->
  exists k1 r1 r2,
    dict_get res' s = Some [("GA"%string, r1); ("GA2"%string, r2)] /\
    solve_with_genetic_algorithm minimize now self s pop_size n_gen k1 = Some r1 /\
    solve_with_modified_ga minimize now self s pop_size n_gen (k1 + 2) = Some r2.
Proof.
  revert res k. induction l as [|s' l IH]; intros res k H Hs; [destruct Hs|].
  simpl in H.
  destruct (compare_step _ _ _ _ _ _ _ _) as [[res1 k1]|] eqn:E; [|discriminate].
  destruct (in_dec Z.eq_dec s l) as [Hin|Hnin]; [exact (IH _ _ H Hin)|].
  destruct Hs as [<-|Hs]; [|contradiction].
  rewrite (compare_loop_frame _ _ _ _ _ _ _ _ _ H Hnin).
  unfold compare_step in E.
  destruct (solve_with_genetic_algorithm _ _ _ _ _ _ _) as [r1|] eqn:E1; [|discriminate].
  destruct (solve_with_modified_ga _ _ _ _ _ _ _) as [r2|] eqn:E2; [|discriminate].
  injection E as <- _. exists k, r1, r2.
  split; [apply dict_get_set_same|]. split; assumption.
Qed.

Lemma compare_algorithms_inv self l pop_size n_gen k self' res :
  compare_algorithms minimize now self l pop_size n_gen k = Some (self', res) ->
  (exists k', compare_loop minimize now self pop_size n_gen l [] k = Some (res, k')) /\
  self' = {| city_coords := city_coords self;
             solver_distance_matrix := solver_distance_matrix self;
             solver_n_cities := solver_n_cities self;
             results := res |}.
Proof.
  unfold compare_algorithms.
  destruct (compare_loop _ _ _ _ _ _ _ _) as [[res1 k1]|]; [|discriminate].
  intros H. injection H as <- <-. eauto.
Qed.

End CompareRuns.

(** ** The best-result loop of [print_results_table] *)

Lemma best_loop_some_config b c es : best_loop b (Some c) es <> None.
Proof.
  revert b c. induction es as [|[[s a] r] es IH]; intros b c; simpl;
    [discriminate|].
  destruct (match b with None => true | Some _ => _ end); apply IH.
Qed.

Lemma best_loop_from (c : Z * string * Result) es e :
  best_loop (Some (distance (snd c))) (Some c) es = Some e ->
  (e = c /\ Forall (fun x => (distance (snd c) <= distance (snd x))%Q) es) \/
  (exists pre post, es = pre ++ e :: post /\
     (distance (snd e) < distance (snd c))%Q /\
     Forall (fun x => (distance (snd e) < distance (snd x))%Q) pre /\
     Forall (fun x => (distance (snd e) <= distance (snd x))%Q) post).
Proof.
  revert c. induction es as [|x es IH]; intros c H; simpl in H.
  - injection H as <-. left. split; [reflexivity | constructor].
  - destruct x as [[s a] r]. simpl in H.
    destruct (Qle_bool (distance (snd c)) (distance r)) eqn:E; simpl in H.
    + apply Qle_bool_iff in E. destruct (IH c H) as [[-> Hall]|(pre & post & -> & Hlt & Hpre & Hpost)].
      * left. split; [reflexivity|]. constructor; [exact E | exact Hall].
      * right. exists ((s, a, r) :: pre), post. split; [reflexivity|].
        split; [exact Hlt|]. split; [|exact Hpost].
        constructor; [simpl; lra | exact Hpre].
    + assert (Hlt : (distance r < distance (snd c))%Q).
      { apply Qnot_le_lt. intros Hle. apply Qle_bool_iff in Hle. congruence. }
      destruct (IH (s, a, r) H) as [[-> Hall]|(pre & post & -> & Hlt' & Hpre & Hpost)].
      * right. exists [], es. split; [reflexivity|]. split; [exact Hlt|].
        split; [constructor | exact Hall].
      * right. exists ((s, a, r) :: pre), post. split; [reflexivity|].
        simpl in Hlt'. split; [lra|]. split; [|exact Hpost].
        constructor; [exact Hlt' | exact Hpre].
Qed.

Lemma best_loop_first es e :
  best_loop None None es = Some e ->
  exists pre post, es = pre ++ e :: post /\
    Forall (fun x => (distance (snd e) < distance (snd x))%Q) pre /\
    Forall (fun x => (distance (snd e) <= distance (snd x))%Q) post.
Proof.
  destruct es as [|[[s a] r] es]; simpl; [discriminate|]. intros H.
  destruct (best_loop_from (s, a, r) es e H)
    as [[-> Hall]|(pre & post & -> & Hlt & Hpre & Hpost)].
  - exists [], es. split; [reflexivity|]. split; [constructor | exact Hall].
  - exists ((s, a, r) :: pre), post. split; [reflexivity|].
    split; [|exact Hpost]. constructor; [exact Hlt | exact Hpre].
Qed.

Lemma best_loop_None es : best_loop None None es = None <-> es = [].
Proof.
  split; [|intros ->; reflexivity].
  destruct es as [|[[s a] r] es]; simpl; [reflexivity|].
  intros H. exfalso. exact (best_loop_some_config _ _ _ H).
Qed.

Lemma entries_of_shape res s es :
  entries_of res s = Some es ->
  exists inner ga ga2,
    dict_get res s = Some inner /\
    str_get inner "GA"%string = Some ga /\ str_get inner "GA2"%string = Some ga2 /\
    es = [(s, "GA"%string, ga); (s, "GA2"%string, ga2)].
Proof.
  unfold entries_of.
  destruct (dict_get res s) as [inner|]; [|discriminate].
  destruct (str_get inner "GA"%string) as [ga|] eqn:E1; [|discriminate].
  destruct (str_get inner "GA2"%string) as [ga2|] eqn:E2; [|discriminate].
  intros H. injection H as <-. exists inner, ga, ga2. repeat split; assumption.
Qed.

Lemma result_entries_nil res es :
  result_entries res = Some es -> (es = [] <-> res = []).
Proof.
  unfold result_entries. destruct res as [|[s v] res']; simpl.
  - intros H. injection H as <-. tauto.
  - destruct (entries_of _ s) as [y|] eqn:Ey; [|discriminate].
    destruct (map_opt _ _) as [ys|]; [|discriminate].
    intros H. injection H as <-.
    destruct (entries_of_shape _ _ _ Ey) as (inner & ga & ga2 & _ & _ & _ & ->).
    split; discriminate.
Qed.

Lemma result_entries_in res es e :
  result_entries res = Some es -> In e es ->
  exists inner ga ga2,
    In (fst (fst e)) (map fst res) /\ dict_get res (fst (fst e)) = Some inner /\
    str_get inner "GA"%string = Some ga /\ str_get inner "GA2"%string = Some ga2 /\
    (e = (fst (fst e), "GA"%string, ga) \/ e = (fst (fst e), "GA2"%string, ga2)).
Proof.
  unfold result_entries.
  destruct (map_opt _ _) as [ls|] eqn:E; [|discriminate].
  intros H He. injection H as <-.
  apply in_concat in He. destruct He as (y & Hy & He).
  destruct (map_opt_in _ _ _ E y Hy) as (s & Hs & Ey).
  destruct (entries_of_shape _ _ _ Ey) as (inner & ga & ga2 & Hi & Hga & Hga2 & ->).
  destruct He as [<-|[<-|[]]]; simpl; exists inner, ga, ga2; eauto 6.
Qed.

Section CompareResults.

Variable minimize : TSPProblem -> GA -> Termination -> Z -> list Z.
Variable now : nat -> Q.

Lemma compare_keys_in self l pop_size n_gen k self' res :
  compare_algorithms minimize now self l pop_size n_gen k = Some (self', res) ->
  map fst res = py_dedup l.
Proof.
  intros H. destruct (compare_algorithms_inv _ _ _ _ _ _ _ _ _ H) as [[k' Hl] _].
  exact (compare_loop_keys _ _ _ _ _ _ _ _ _ _ Hl).
Qed.

Lemma compare_entries_in self l pop_size n_gen k self' res s :
  compare_algorithms minimize now self l pop_size n_gen k = Some (self', res) ->
  In s l ->
  exists k1 r1 r2,
    dict_get res s = Some [("GA"%string, r1); ("GA2"%string, r2)] /\
    solve_with_genetic_algorithm minimize now self s pop_size n_gen k1 = Some r1 /\
    solve_with_modified_ga minimize now self s pop_size n_gen (k1 + 2) = Some r2.
Proof.
  intros H. destruct (compare_algorithms_inv _ _ _ _ _ _ _ _ _ H) as [[k' Hl] _].
  exact (compare_loop_entries _ _ _ _ _ _ _ _ _ _ _ Hl).
Qed.

(** The dict returned by [compare_algorithms], also stored in
    [self.results], has as keys the start cities in order of first
    occurrence, each once; the other fields of the solver are unchanged. *)
Theorem compare_results_keys self l pop_size n_gen k self' res :
  compare_algorithms minimize now self l pop_size n_gen k = Some (self', res) ->
  map fst res = py_dedup l /\ NoDup (map fst res) /\
  (forall s, In s (map fst res) <-> In s l) /\
  self' = {| city_coords := city_coords self;
             solver_distance_matrix := solver_distance_matrix self;
             solver_n_cities := solver_n_cities self;
             results := res |}.
Proof.
  intros H. pose proof (compare_keys_in _ _ _ _ _ _ _ H) as Hk.
  destruct (py_dedup_spec l) as [Hnd Hin].
  rewrite Hk. split; [reflexivity|]. split; [exact Hnd|]. split; [exact Hin|].
  exact (proj2 (compare_algorithms_inv _ _ _ _ _ _ _ _ _ H)).
Qed.

(** For every start city [s] of the list, [results[s]] is the dict
    [{'GA': r1, 'GA2': r2}] of a run of each algorithm from [s] (with the
    seeds and parameters of the solvers). *)
Theorem compare_results_entries self l pop_size n_gen k self' res s :
  compare_algorithms minimize now self l pop_size n_gen k = Some (self', res) ->
  In s l ->
  exists k1 r1 r2,
    dict_get res s = Some [("GA"%string, r1); ("GA2"%string, r2)] /\
    solve_with_genetic_algorithm minimize now self s pop_size n_gen k1 = Some r1 /\
    solve_with_modified_ga minimize now self s pop_size n_gen (k1 + 2) = Some r2.
Proof. exact (compare_entries_in self l pop_size n_gen k self' res s). Qed.

(** Reading the dict of a successful [compare_algorithms] with the loop of
    [print_results_table] raises no [KeyError]; with distances that are
    numbers (no [inf] or [nan]), a best configuration is found unless the
    list of start cities is empty, and it is the result of a run of its
    algorithm from its start city, a city of the list. *)
Theorem compare_then_find_best self l pop_size n_gen k self' res :
  compare_algorithms minimize now self l pop_size n_gen k = Some (self', res) ->
  exists b, find_best res = Some b /\ (b = None <-> l = []) /\
  forall s algo r, b = Some (s, algo, r) ->
    In s l /\
    exists k1 r1 r2,
      ((algo = "GA"%string /\ r = r1) \/ (algo = "GA2"%string /\ r = r2)) /\
      solve_with_genetic_algorithm minimize now self s pop_size n_gen k1 = Some r1 /\
      solve_with_modified_ga minimize now self s pop_size n_gen (k1 + 2) = Some r2.
Proof.
  intros H. pose proof (compare_keys_in _ _ _ _ _ _ _ H) as Hk.
  destruct (py_dedup_spec l) as [_ Hin]. rewrite <- Hk in Hin.
  assert (Hes : exists es, result_entries res = Some es).
  { unfold result_entries.
    destruct (map_opt (entries_of res) (map fst res)) as [ls|] eqn:E; [eauto|].
    apply map_opt_None in E. destruct E as (a & Ha & Ea).
    destruct (compare_entries_in _ _ _ _ _ _ _ a H (proj1 (Hin a) Ha))
      as (k1 & r1 & r2 & Hg & _ & _).
    unfold entries_of in Ea. rewrite Hg in Ea. discriminate. }
  destruct Hes as [es Hes]. exists (best_loop None None es).
  split; [unfold find_best; rewrite Hes; reflexivity|]. split.
  - rewrite best_loop_None, (result_entries_nil _ _ Hes).
    split.
    + intros ->. destruct l as [|s l]; [reflexivity|].
      exfalso. apply (proj2 (Hin s)). left. reflexivity.
    + intros ->. destruct res as [|p res]; [reflexivity|].
      simpl in Hk. discriminate.
  - intros s algo r Hb.
    destruct (best_loop_first es _ Hb) as (pre & post & -> & _ & _).
    assert (He : In (s, algo, r) (pre ++ (s, algo, r) :: post))
      by (apply in_or_app; right; left; reflexivity).
    destruct (result_entries_in _ _ _ Hes He)
      as (inner & ga & ga2 & Hs & Hg & Hga & Hga2 & Heq). simpl in *.
    apply Hin in Hs. split; [exact Hs|].
    destruct (compare_entries_in _ _ _ _ _ _ _ s H Hs)
      as (k1 & r1 & r2 & Hg' & H1 & H2).
    rewrite Hg' in Hg. injection Hg as <-. simpl in Hga, Hga2.
    injection Hga as <-. injection Hga2 as <-.
    exists k1, r1, r2. split; [|split; assumption].
    destruct Heq as [E|E]; injection E as -> ->; [left | right]; split; reflexivity.
Qed.

End CompareResults.


(** With distances that are numbers, [find_best] reports no best
    configuration exactly when the results dict is empty. *)
Theorem find_best_none_iff_empty res : find_best res = Some None <-> res = [].
Proof.
  split; [|intros ->; reflexivity].
  unfold find_best. destruct (result_entries res) as [es|] eqn:E; [|discriminate].
  intros H. injection H as H. apply best_loop_None in H.
  exact (proj1 (result_entries_nil _ _ E) H).
Qed.

Lemma sample_compare_ok :
  compare_algorithms id_engine clock0 (mk_solver [] D3) [0; 2; 0] 10 50 0
  = Some (sample_solver, sample_results).
Proof. vm_compute. reflexivity. Qed.

Lemma compare_results_keys_witness :
  compare_algorithms id_engine clock0 (mk_solver [] D3) [0; 2; 0] 10 50 0
    = Some (sample_solver, sample_results) /\
  map fst sample_results = [0; 2] /\ NoDup (map fst sample_results).
Proof.
  destruct (compare_results_keys id_engine clock0 (mk_solver [] D3) [0; 2; 0] 10 50 0
              sample_solver sample_results sample_compare_ok) as (Hk & Hnd & _).
  split; [exact sample_compare_ok|]. split; [|exact Hnd].
  rewrite Hk. reflexivity.
Defined.

Lemma compare_results_entries_witness :
  exists k1 r1 r2,
    dict_get sample_results 2 = Some [("GA"%string, r1); ("GA2"%string, r2)] /\
    solve_with_genetic_algorithm id_engine clock0 (mk_solver [] D3) 2 10 50 k1 = Some r1 /\
    solve_with_modified_ga id_engine clock0 (mk_solver [] D3) 2 10 50 (k1 + 2) = Some r2.
Proof.
  apply (compare_results_entries id_engine clock0 (mk_solver [] D3) [0; 2; 0] 10 50 0
           sample_solver sample_results 2 sample_compare_ok).
  simpl. tauto.
Defined.

Lemma compare_then_find_best_witness :
  exists b, find_best sample_results = Some b /\ b <> None.
Proof.
  destruct (compare_then_find_best id_engine clock0 (mk_solver [] D3) [0; 2; 0] 10 50 0
              sample_solver sample_results sample_compare_ok) as (b & Hb & Hn & _).
  exists b. split; [exact Hb|]. intros E. apply Hn in E. discriminate.
Defined.


(** ** The data-file loaders *)

Lemma length3_list {A} (l : list A) (x : A) :
  length l = 3%nat -> l = [nth 0 l x; nth 1 l x; nth 2 l x].
Proof. destruct l as [|a [|b [|c [|d l]]]]; simpl; try discriminate; reflexivity. Qed.

Lemma dict_get_set {V} (d : list (Z * V)) (k t : Z) (v : V) :
  dict_get (dict_set d k v) t = if k =? t then Some v else dict_get d t.
Proof.
  destruct (Z.eqb_spec k t) as [<-|Hne];
    [apply dict_get_set_same | apply dict_get_set_other, Hne].
Qed.

Lemma dict_set_NoDup {V} (d : list (Z * V)) (k : Z) (v : V) :
  NoDup (map fst d) -> NoDup (map fst (dict_set d k v)).
Proof.
  intros Hnd. rewrite dict_set_keys.
  destruct (existsb (Z.eqb k) (map fst d)) eqn:E; [exact Hnd|].
  apply NoDup_app; [exact Hnd | constructor; [intros []|constructor] |].
  intros x Hx [<-|[]]. apply Bool.not_true_iff_false in E.
  apply E, existsb_eqb_In, Hx.
Qed.

Section LoaderProofs.

Variable py_int : string -> option Z.
Variable py_float : string -> option Q.

Lemma load_city_lines_app d l1 l2 :
  load_city_lines py_int py_float d (l1 ++ l2) =
  match load_city_lines py_int py_float d l1 with
  | Some d' => load_city_lines py_int py_float d' l2
  | None => None
  end.
Proof.
  revert d. induction l1 as [|line l1 IH]; intros d; [reflexivity|]. simpl.
  destruct (length (py_split (py_strip line)) =? 3)%nat; [|apply IH].
  destruct (py_int _); [|reflexivity].
  destruct (py_float _); [|reflexivity].
  destruct (py_float _); [apply IH | reflexivity].
Qed.

Lemma load_city_lines_filter d lines :
  load_city_lines py_int py_float d lines =
  load_city_lines py_int py_float d
    (filter (fun line => (length (py_split (py_strip line)) =? 3)%nat) lines).
Proof.
  revert d. induction lines as [|line lines IH]; intros d; [reflexivity|]. simpl.
  destruct (length (py_split (py_strip line)) =? 3)%nat eqn:E; [|apply IH].
  simpl. rewrite E.
  destruct (py_int _); [|reflexivity].
  destruct (py_float _); [|reflexivity].
  destruct (py_float _); [apply IH | reflexivity].
Qed.

Lemma load_city_lines_entries d0 lines d :
  load_city_lines py_int py_float d0 lines = Some d ->
  NoDup (map fst d0) ->
  NoDup (map fst d) /\
  forall id x y, dict_get d id = Some (x, y) ->
    dict_get d0 id = Some (x, y) \/
    exists line, In line lines /\ exists a b c,
      py_split (py_strip line) = [a; b; c] /\
      py_int a = Some id /\ py_float b = Some x /\ py_float c = Some y.
Proof.
  revert d0. induction lines as [|line lines IH]; intros d0 H Hnd; simpl in H.
  - injection H as <-. split; [exact Hnd | intros; left; assumption].
  - destruct (length (py_split (py_strip line)) =? 3)%nat eqn:E.
    + apply Nat.eqb_eq, (length3_list _ ""%string) in E.
      destruct (py_int _) as [cid|] eqn:Ei; [|discriminate].
      destruct (py_float (nth 1 _ _)) as [x0|] eqn:Ex; [|discriminate].
      destruct (py_float (nth 2 _ _)) as [y0|] eqn:Ey; [|discriminate].
      destruct (IH _ H (dict_set_NoDup _ _ _ Hnd)) as [Hnd' Hget].
      split; [exact Hnd'|]. intros id x y Hg.
      destruct (Hget id x y Hg) as [Hg0|(l & Hl & Hex)].
      * rewrite dict_get_set in Hg0. destruct (Z.eqb_spec cid id) as [<-|_].
        -- injection Hg0 as <- <-. right. exists line. split; [left; reflexivity|].
           exists (nth 0 (py_split (py_strip line)) ""%string),
                  (nth 1 (py_split (py_strip line)) ""%string),
                  (nth 2 (py_split (py_strip line)) ""%string).
           split; [exact E|]. auto.
        -- left. exact Hg0.
      * right. exists l. split; [right; exact Hl | exact Hex].
    + destruct (IH _ H Hnd) as [Hnd' Hget]. split; [exact Hnd'|].
      intros id x y Hg. destruct (Hget id x y Hg) as [Hg0|(l & Hl & Hex)];
        [left; exact Hg0 | right; exists l; split; [right; exact Hl | exact Hex]].
Qed.

Lemma load_rows_blank d lines :
  load_rows py_float d lines =
  load_rows py_float d (filter (fun line => negb (blank_line line)) lines).
Proof.
  revert d. induction lines as [|line lines IH]; intros d; [reflexivity|]. simpl.
  unfold blank_line. destruct (py_split (py_strip line)) as [|t ts] eqn:E.
  - simpl. apply IH.
  - simpl. rewrite E. simpl.
    destruct (py_float t); [|reflexivity].
    destruct (map_opt py_float ts); [apply IH | reflexivity].
Qed.

Lemma load_rows_spec d lines D :
  load_rows py_float d lines = Some D ->
  exists rows, D = d ++ rows /\
    Forall2 (fun line row => map_opt py_float (py_split (py_strip line)) = Some row)
      (filter (fun line => negb (blank_line line)) lines) rows.
Proof.
  revert d. induction lines as [|line lines IH]; intros d H; simpl in H.
  - injection H as <-. exists []. rewrite app_nil_r. split; [reflexivity | constructor].
  - simpl. unfold blank_line at 1.
    destruct (py_split (py_strip line)) as [|t ts] eqn:E.
    + simpl in H. apply IH, H.
    + simpl. destruct (map_opt py_float (t :: ts)) as [row|] eqn:Er; [|discriminate].
      destruct row as [|v row'].
      { simpl in Er. destruct (py_float t); [|discriminate].
        destruct (map_opt py_float ts); discriminate. }
      destruct (IH _ H) as (rows & -> & Hf).
      exists ((v :: row') :: rows). rewrite <- app_assoc. split; [reflexivity|].
      constructor; [rewrite E; exact Er | exact Hf].
Qed.

Lemma load_rows_total d lines rows :
  Forall2 (fun line row => map_opt py_float (py_split (py_strip line)) = Some row)
    (filter (fun line => negb (blank_line line)) lines) rows ->
  load_rows py_float d lines = Some (d ++ rows).
Proof.
  rewrite (load_rows_blank d lines).
  set (ls := filter _ lines). assert (Hnb : forall l, In l ls -> blank_line l = false).
  { intros l Hl. apply filter_In in Hl. destruct Hl as [_ Hb].
    destruct (blank_line l); [discriminate | reflexivity]. }
  clearbody ls. revert d rows. induction ls as [|line ls IH]; intros d rows Hf.
  - inversion Hf. rewrite app_nil_r. reflexivity.
  - inversion Hf as [|? row ? rows' Hr Hf']. subst. simpl. rewrite Hr.
    assert (Hb := Hnb line (or_introl eq_refl)). unfold blank_line in Hb.
    destruct (py_split (py_strip line)) as [|t ts] eqn:E; [discriminate|].
    destruct row as [|v row'].
    { simpl in Hr. destruct (py_float t); [|discriminate].
      destruct (map_opt py_float ts); discriminate. }
    rewrite (IH (fun l Hl => Hnb l (or_intror Hl)) _ _ Hf'), <- app_assoc. reflexivity.
Qed.

Lemma np_array_spec rows D :
  np_array rows = Some D <->
  D = rows /\ Forall (fun r => length r = length (hd [] rows)) rows.
Proof.
  unfold np_array. destruct rows as [|r rows].
  - split; [intros H; injection H as <-; split; [reflexivity | constructor]|].
    intros [-> _]. reflexivity.
  - destruct (forallb _ (r :: rows)) eqn:E.
    + rewrite List.forallb_forall in E. split.
      * intros H. injection H as <-. split; [reflexivity|].
        apply Forall_forall. intros x Hx. apply Nat.eqb_eq, E, Hx.
      * intros [-> _]. reflexivity.
    + split; [discriminate|]. intros [_ Hall].
      apply Bool.not_true_iff_false in E. exfalso. apply E, List.forallb_forall.
      intros x Hx. apply Nat.eqb_eq. rewrite Forall_forall in Hall. apply Hall, Hx.
Qed.

End LoaderProofs.

(** [load_city_data] only reads the lines that split into exactly three
    tokens: dropping every other line (headers, blank or longer lines)
    gives the same dict, or the same error. *)
Theorem load_city_data_ignores_other_lines py_int py_float lines :
  load_city_data py_int py_float lines =
  load_city_data py_int py_float
    (filter (fun line => (length (py_split (py_strip line)) =? 3)%nat) lines).
Proof. apply load_city_lines_filter. Qed.

(** The dict of [load_city_data] has each city id once, and each entry
    [id: (x, y)] comes from a line of three tokens that parse as [id], [x]
    and [y]. *)
Theorem load_city_data_entries py_int py_float lines d :
  load_city_data py_int py_float lines = Some d ->
  NoDup (map fst d) /\
  forall id x y, dict_get d id = Some (x, y) ->
    exists line, In line lines /\ exists a b c,
      py_split (py_strip line) = [a; b; c] /\
      py_int a = Some id /\ py_float b = Some x /\ py_float c = Some y.
Proof.
  intros H. destruct (load_city_lines_entries _ _ _ _ _ H (NoDup_nil _)) as [Hnd Hg].
  split; [exact Hnd|]. intros id x y Hd.
  destruct (Hg id x y Hd) as [H0|Hex]; [discriminate H0 | exact Hex].
Qed.

(** A later line for a city id overrides the earlier ones: appending a
    three-token line [id x y] sets the entry of [id] to [(x, y)], adds [id]
    at the end of the keys if it was new, and leaves the other entries. *)
Theorem load_city_data_last_line_wins py_int py_float lines d line a b c id x y :
  load_city_data py_int py_float lines = Some d ->
  py_split (py_strip line) = [a; b; c] ->
  py_int a = Some id -> py_float b = Some x -> py_float c = Some y ->
  exists d', load_city_data py_int py_float (lines ++ [line]) = Some d' /\
    dict_get d' id = Some (x, y) /\
    map fst d' = dedup_step (map fst d) id /\
    forall t, t <> id -> dict_get d' t = dict_get d t.
Proof.
  intros Hd Hs Ha Hb Hc. unfold load_city_data in *.
  rewrite load_city_lines_app, Hd. simpl. rewrite Hs. simpl.
  rewrite Ha, Hb, Hc. exists (dict_set d id (x, y)).
  split; [reflexivity|]. split; [apply dict_get_set_same|].
  split; [rewrite dict_set_keys; reflexivity|].
  intros t Ht. apply dict_get_set_other. congruence.
Qed.

(** [load_distance_matrix] skips the lines with no token: dropping them
    gives the same matrix, or the same error. *)
Theorem load_distance_matrix_skips_blank py_float lines :
  load_distance_matrix py_float lines =
  load_distance_matrix py_float (filter (fun line => negb (blank_line line)) lines).
Proof.
  unfold load_distance_matrix. rewrite (load_rows_blank py_float [] lines).
  assert (Hf : forall (f : string -> bool) l, filter f (filter f l) = filter f l).
  { intros f l. induction l as [|x l IH]; [reflexivity|]. simpl.
    destruct (f x) eqn:E; simpl; rewrite ?E, IH; reflexivity. }
  rewrite (load_rows_blank py_float [] (filter _ lines)), Hf. reflexivity.
Qed.

(** [load_distance_matrix] succeeds exactly when every non-blank line
    parses to a row of floats and all rows have the length of the first;
    the matrix is then these rows in file order.  Nothing requires it to be
    square, or its entries to be non-negative or symmetric. *)
Theorem load_distance_matrix_rows py_float lines D :
  load_distance_matrix py_float lines = Some D <->
  Forall2 (fun line row => map_opt py_float (py_split (py_strip line)) = Some row)
    (filter (fun line => negb (blank_line line)) lines) D /\
  Forall (fun r => length r = length (hd [] D)) D.
Proof.
  unfold load_distance_matrix. split.
  - destruct (load_rows py_float [] lines) as [rows|] eqn:E; [|discriminate].
    intros H. apply np_array_spec in H. destruct H as [-> Hall].
    destruct (load_rows_spec _ _ _ _ E) as (rows' & -> & Hf).
    split; [exact Hf | exact Hall].
  - intros [Hf Hall]. rewrite (load_rows_total _ [] lines D Hf).
    apply np_array_spec. split; [reflexivity | exact Hall].
Qed.

Lemma load_city_data_entries_witness :
  load_city_data parse_digits parse_digits_Q
    ["1 10 20"; "city x y z"; ""; "1 30 40"; " 2 5 6 "]%string
  = Some [(1, (30, 40)%Q); (2, (5, 6)%Q)] /\
  NoDup (map fst [(1, (30, 40)%Q); (2, (5, 6)%Q)]).
Proof.
  assert (H : load_city_data parse_digits parse_digits_Q
                ["1 10 20"; "city x y z"; ""; "1 30 40"; " 2 5 6 "]%string
              = Some [(1, (30, 40)%Q); (2, (5, 6)%Q)]) by (vm_compute; reflexivity).
  split; [exact H|].
  exact (proj1 (load_city_data_entries _ _ _ _ H)).
Defined.

Lemma load_city_data_last_line_wins_witness :
  exists d', load_city_data parse_digits parse_digits_Q
               (["1 10 20"%string; "2 5 6"%string] ++ ["1 30 40"%string]) = Some d' /\
    dict_get d' 1 = Some (30, 40)%Q.
Proof.
  assert (Hd : load_city_data parse_digits parse_digits_Q ["1 10 20"; "2 5 6"]%string
               = Some [(1, (10, 20)%Q); (2, (5, 6)%Q)]) by (vm_compute; reflexivity).
  destruct (load_city_data_last_line_wins parse_digits parse_digits_Q _ _ "1 30 40"%string
              "1"%string "30"%string "40"%string 1 30%Q 40%Q Hd
              ltac:(vm_compute; reflexivity) ltac:(vm_compute; reflexivity)
              ltac:(vm_compute; reflexivity) ltac:(vm_compute; reflexivity))
    as (d' & Hd' & Hg & _).
  exists d'. split; [exact Hd' | exact Hg].
Defined.
